(** * The premises network of terms (src/terms/network.py)

    A shallow embedding of the module [terms.network]: the bindings
    ([Match]), the discrimination nodes and their [dispatch], the premise
    terminals, the rules with their conditions, and the [Network] entry
    points [initialize], [add_fact] and [add_rule].

    Conventions of the embedding.
    - The module is Python 3 source (its header holds non-ASCII text and no
      coding line).  [Match.merge] is also read under Python 2, where
      [items()] yields lists, see [python]; a Python 2 dictionary
      enumerates its entries in the order of its hash table, which this
      file leaves open, see [Match_merge_enumerated].
    - Lines 403 and 407 of the source lack the colon that closes a [for] or
      [if] header; they are read as if it were there.
    - A Python call either returns a value or raises: functions return an
      [outcome], and the stateful ones run in the monad [M] over the store.
    - Objects that the code shares and updates in place ([Match] instances)
      live in a heap and are passed by location.
    - The store keeps the mapped objects that the interpreter has made, by
      class, an object's identity being its index.  An object need not be
      in the session: the [Rule] that l.105 makes enters it only through a
      premise node that lists it (l.118), see [registered].  Writing the
      rows is the library's [session.commit()]: the one that ends
      [add_rule] (l.125) is the external [session_commit], which can raise;
      [initialize] is given with its commit (l.86) gone through. *)

From Stdlib Require Import Ascii.
From stdpp Require Import base list strings pretty.

(** ** Exceptions and outcomes *)

Variant exn : Set :=
  | TypeError | NameError | KeyError | AttributeError | IndexError
  | NotImplementedError | RecursionError | SystemError
  | NoResultFound | MultipleResultsFound | OperationalError | IntegrityError.

Variant outcome (A : Type) : Type :=
  | Ok (a : A)
  | Raise (e : exn).
Arguments Ok {A} a.
Arguments Raise {A} e.

Definition is_Raise {A} (o : outcome A) : Prop :=
  match o with Raise _ => True | Ok _ => False end.

Definition outcome_bind {A B} (o : outcome A) (k : A → outcome B) : outcome B :=
  match o with Ok a => k a | Raise e => Raise e end.

(** ** Terms (terms.terms.Term, an external collaborator)

    The module reads of a term its row id, its [name], its [true] flag (for
    negation), its [var] and [type_id] columns, its rows of [term_to_base],
    and the objects it holds under labels ([get_object]). *)

#[local] Unset Elimination Schemes.
Inductive Term : Type := MkTerm {
  Term_id : nat;
  Term_name : string;
  Term_true : bool;
  Term_var : nat;
  Term_type_id : nat;
  Term_base_ids : list nat;
  Term_objects : list (string * Term) }.
#[local] Set Elimination Schemes.

(** [term.get_object(segment)]; [None] stands for the [AttributeError] that
    the callers catch. *)
Fixpoint assoc_find {A} (k : string) (l : list (string * A)) : option A :=
  match l with
  | [] => None
  | (k', a) :: l => if String.eqb k k' then Some a else assoc_find k l
  end.

Definition Term_get_object (t : Term) (segment : string) : option Term :=
  assoc_find segment (Term_objects t).

(** ** Python values held by nodes and bindings *)

Inductive pyval : Type :=
  | VNone
  | VBool (b : bool)
  | VStr (s : string)
  | VTerm (t : Term).

(** [==]: mapped objects are compared by identity, that is by row. *)
Definition pyval_eqb (a b : pyval) : bool :=
  match a, b with
  | VNone, VNone => true
  | VBool x, VBool y => Bool.eqb x y
  | VStr x, VStr y => String.eqb x y
  | VTerm x, VTerm y => Term_id x =? Term_id y
  | _, _ => false
  end.

(** Truth value of a Python object, as [if] and [not] take it. *)
Definition truthy (v : pyval) : bool :=
  match v with
  | VNone => false
  | VBool b => b
  | VStr s => negb (String.eqb s "")
  | VTerm _ => true
  end.

(** Keys of a binding: slot numbers during dispatch, variable names once a
    rule has translated them. *)
Variant key : Set :=
  | KInt (n : nat)
  | KStr (s : string).

Definition key_eqb (a b : key) : bool :=
  match a, b with
  | KInt x, KInt y => x =? y
  | KStr x, KStr y => String.eqb x y
  | _, _ => false
  end.

(** ** dict

    The entries in the order in which they were inserted, which is the order
    [items()] enumerates them in under Python 3; a key occurs once.  Under
    Python 2 the order of enumeration is that of the hash table and need
    not be the order of insertion: what is said under that reading is said
    of the entries by lookup, and for every enumeration. *)

Definition dict (V : Type) : Type := list (key * V).

Fixpoint dict_get {V} (k : key) (d : dict V) : option V :=
  match d with
  | [] => None
  | (k', v) :: d => if key_eqb k k' then Some v else dict_get k d
  end.

(** [k in d] *)
Definition dict_in {V} (k : key) (d : dict V) : bool :=
  match dict_get k d with Some _ => true | None => false end.

(** [d[k] = v]: the entry of [k] is replaced where it stands, a new key goes
    last. *)
Fixpoint dict_set {V} (k : key) (v : V) (d : dict V) : dict V :=
  match d with
  | [] => [(k, v)]
  | (k', v') :: d => if key_eqb k k' then (k, v) :: d else (k', v') :: dict_set k v d
  end.

(** [d[k]] *)
Definition dict_getitem {V} (k : key) (d : dict V) : outcome V :=
  match dict_get k d with Some v => Ok v | None => Raise KeyError end.

(** ** Match (l.41-64) *)

Definition path : Type := list string.

Record Match : Type := MkMatch {
  Match_fact : Term;
  Match_paths : list path;
  Match_prem : option nat;
  Match_items : dict pyval }.

(** [Match(fact, prem=None)] (l.43-47) *)
Definition Match_new (fact : Term) (prem : option nat) : Match :=
  {| Match_fact := fact; Match_paths := []; Match_prem := prem; Match_items := [] |}.

Definition Match_setitem (k : key) (v : pyval) (m : Match) : Match :=
  {| Match_fact := Match_fact m; Match_paths := Match_paths m;
     Match_prem := Match_prem m; Match_items := dict_set k v (Match_items m) |}.

(** [Match.copy] (l.49-55): a new object with the same entries, premise and
    paths. *)
Definition Match_copy (self : Match) : Match :=
  let new_match := Match_new (Match_fact self) None in
  let new_match :=
    fold_left (fun nm kv => Match_setitem (fst kv) (snd kv) nm) (Match_items self) new_match in
  {| Match_fact := Match_fact new_match;
     Match_paths := Match_paths self;
     Match_prem := Match_prem self;
     Match_items := Match_items new_match |}.

(** The two readings of [self.items() + m.items()] (l.59): Python 2 joins two
    lists, Python 3 has no [+] on item views. *)
Variant python : Set := Python2 | Python3.

Definition items_add {V} (py : python) (a b : dict V) : outcome (list (key * V)) :=
  match py with
  | Python2 => Ok (a ++ b)
  | Python3 => Raise TypeError
  end.

(** What [merge] returns: a new [Match], or [False]. *)
Variant merged : Type :=
  | Merged (new_match : Match)
  | MergeFalse.

(** The loop of l.59-63. *)
Fixpoint Match_merge_loop (self m : Match) (its : list (key * pyval)) (new_match : Match)
  : outcome merged :=
  match its with
  | [] => Ok (Merged new_match)
  | (k, v) :: its =>
      if dict_in k (Match_items m) then
        match dict_getitem k (Match_items self) with
        | Raise e => Raise e
        | Ok sv =>
            if negb (pyval_eqb sv v) then Ok MergeFalse
            else Match_merge_loop self m its (Match_setitem k v new_match)
        end
      else Match_merge_loop self m its (Match_setitem k v new_match)
  end.

(** [Match.merge] (l.57-64) *)
Definition Match_merge (py : python) (self m : Match) : outcome merged :=
  let new_match := Match_new (Match_fact self) None in
  outcome_bind (items_add py (Match_items self) (Match_items m))
    (fun its => Match_merge_loop self m its new_match).

(** [Match.merge] under Python 2 when [self.items()] and [m.items()]
    enumerate the entries of the two bindings as [self_items] and
    [m_items]. *)
Definition Match_merge_enumerated (self_items m_items : list (key * pyval))
    (self m : Match) : outcome merged :=
  Match_merge_loop self m (self_items ++ m_items) (Match_new (Match_fact self) None).

(** ** The store

    Mapped objects are kept by class, an object's identity being its index.
    [heap] holds the [Match] objects alive in the interpreter. *)

(** The mapped node classes, by polymorphic identity (l.236-361). *)
Variant nclass : Set := RootNode | NegNode | TermNode | VerbNode | LabelNode.

Definition nclass_eqb (a b : nclass) : bool :=
  match a, b with
  | RootNode, RootNode | NegNode, NegNode | TermNode, TermNode
  | VerbNode, VerbNode | LabelNode, LabelNode => true
  | _, _ => false
  end.

Record Node : Type := MkNode {
  Node_ntype : nclass;
  Node_value : pyval;
  Node_var : nat;
  Node_parent_id : option nat;
  Node_child_path : path }.

(** [Varname] (l.428-452) *)
Record Varname : Type := MkVarname {
  Varname_name_num : nat;
  Varname_var : Term;
  Varname_rule : nat }.

(** [PVarname] (l.542-568) *)
Record PVarname : Type := MkPVarname {
  PVarname_prem : nat;
  PVarname_num : nat;
  PVarname_varname : Varname }.

(** [CondArg] (l.571-596) and [Condition] (l.599-621) *)
Record CondArg : Type := MkCondArg {
  CondArg_varname : option Varname;
  CondArg_term : option Term }.

Record Condition : Type := MkCondition {
  Condition_fpath : string;
  Condition_args : list CondArg }.

(** [PremNode] (l.378-391): its parent node and the rules it is registered
    for.  The class declares neither the [vars] nor the [matches] that its
    [dispatch] names (l.396, l.398, l.405); its [pvars] (the backref of
    l.558) are read by no function of the module. *)
Record PremNode : Type := MkPremNode {
  PremNode_parent_id : nat;
  PremNode_rules : list nat }.

(** [Rule] (l.624-632).  [Rule_conditions] is the relationship that
    [Rule.dispatch] reads (the backref of l.606); [Rule_conds] is the plain
    attribute that [add_rule] sets at l.121: it lives on the object and is
    no column of the table; [Rule_consecuences] is the collection that l.123
    and l.664 name [consecuences]; [Rule_pvars] and [Rule_varnames] are the
    backrefs of l.555 and l.438; [Rule__pvn_dict] is the attribute
    [_pvn_dict], absent until [_get_vname] creates it.  The empty [MNode]
    that [Rule.__init__] makes (l.632) is read by no function of this
    file. *)
Record Rule : Type := MkRule {
  Rule_conditions : list Condition;
  Rule_conds : list Condition;
  Rule_consecuences : list Term;
  Rule_pvars : list PVarname;
  Rule__pvn_dict : option (list (string * PVarname));
  Rule_varnames : list Varname }.

Record Network : Type := MkNetwork {
  tables : bool;
  nodes : list Node;
  premnodes : list PremNode;
  rules : list Rule;
  facts : list Term;
  root : option nat;
  heap : list Match }.

Definition set_tables (b : bool) (s : Network) : Network :=
  MkNetwork b (nodes s) (premnodes s) (rules s) (facts s) (root s) (heap s).
Definition set_nodes (ns : list Node) (s : Network) : Network :=
  MkNetwork (tables s) ns (premnodes s) (rules s) (facts s) (root s) (heap s).
Definition set_premnodes (ps : list PremNode) (s : Network) : Network :=
  MkNetwork (tables s) (nodes s) ps (rules s) (facts s) (root s) (heap s).
Definition set_rules (rs : list Rule) (s : Network) : Network :=
  MkNetwork (tables s) (nodes s) (premnodes s) rs (facts s) (root s) (heap s).
Definition set_facts (fs : list Term) (s : Network) : Network :=
  MkNetwork (tables s) (nodes s) (premnodes s) (rules s) fs (root s) (heap s).
Definition set_root (r : option nat) (s : Network) : Network :=
  MkNetwork (tables s) (nodes s) (premnodes s) (rules s) (facts s) r (heap s).
Definition set_heap (h : list Match) (s : Network) : Network :=
  MkNetwork (tables s) (nodes s) (premnodes s) (rules s) (facts s) (root s) h.

(** ** The monad of the stateful code *)

Definition M (A : Type) : Type := Network → outcome A * Network.

Definition ret {A} (a : A) : M A := fun s => (Ok a, s).
Definition raise {A} (e : exn) : M A := fun s => (Raise e, s).
Definition bind {A B} (c : M A) (k : A → M B) : M B :=
  fun s => match c s with
           | (Ok a, s') => k a s'
           | (Raise e, s') => (Raise e, s')
           end.
Definition lift {A} (o : outcome A) : M A := fun s => (o, s).
Definition gets {A} (f : Network → A) : M A := fun s => (Ok (f s), s).
Definition modify (f : Network → Network) : M unit := fun s => (Ok tt, f s).

Notation "'let!' x ':=' c 'in' k" := (bind c (fun x => k))
  (at level 10, x name, c at level 100, k at level 200).
Notation "'do!' c 'in' k" := (bind c (fun _ => k))
  (at level 10, c at level 100, k at level 200).

(** [for x in l: body] *)
Fixpoint for_each {A} (l : list A) (body : A → M unit) : M unit :=
  match l with
  | [] => ret tt
  | x :: l => do! body x in for_each l body
  end.

(** A call of a function declaring between [lo] and [hi] positional
    parameters (the receiver apart) with [given] arguments: Python counts
    them when the call is made and raises [TypeError] on a mismatch. *)
Definition call {A} (lo hi given : nat) (body : M A) : M A :=
  if (lo <=? given) && (given <=? hi) then body else raise TypeError.

(** An object by id; ids handed out by the store always resolve. *)
Definition the {A} (o : option A) : M A :=
  match o with Some a => ret a | None => raise SystemError end.

Definition get_node (i : nat) : M Node := fun s => the (nodes s !! i) s.
Definition get_match (l : nat) : M Match := fun s => the (heap s !! l) s.
Definition get_rule (i : nat) : M Rule := fun s => the (rules s !! i) s.

(** A new object: it takes the next location. *)
Definition heap_alloc (m : Match) : M nat :=
  fun s => (Ok (length (heap s)), set_heap (heap s ++ [m]) s).

Definition heap_update (l : nat) (f : Match → Match) : M unit :=
  let! m := get_match l in modify (fun s => set_heap (<[l := f m]> (heap s)) s).

(** [Match(...)] with the given positional arguments (l.43: [fact] is
    required, [prem] is never passed in this module). *)
Definition Match_call (args : list Term) : M nat :=
  match args with
  | [fact] => heap_alloc (Match_new fact None)
  | _ => raise TypeError
  end.

(** ** External collaborators

    What the module imports and this file does not define: the pattern of
    variable names ([patterns.varpat]), the type hierarchy ([term_type],
    [get_bases], [isa], [thing] of [terms.words]), the decomposition of a
    fact into paths ([factset.get_paths]), the instantiation of a
    consequence ([substitute]), the initialisation of the fact set, and
    [session.commit()] as [add_rule] calls it: the flush of what the session
    holds, which returns or raises as the library and the database decide
    (so [IntegrityError] on a row that a key of the schema refuses). *)
Record Externals : Type := MkExternals {
  varpat_match : string → option nat;
  term_type : Term → Term;
  get_bases : Term → list Term;
  isa : Term → Term → bool;
  thing : Term;
  get_paths : Term → list path;
  substitute : Term → dict pyval → Term;
  factset_initialize : list Term → list Term;
  session_commit : Network → outcome unit }.

(** ** Node classes *)

(** [Network._get_nclass] (l.88-93): the class of a polymorphic identity, or
    [None]. *)
Definition Network__get_nclass (ntype : string) : option nclass :=
  if String.eqb ntype "_root" then Some RootNode
  else if String.eqb ntype "_neg" then Some NegNode
  else if String.eqb ntype "_term" then Some TermNode
  else if String.eqb ntype "_verb" then Some VerbNode
  else if String.eqb ntype "_label" then Some LabelNode
  else None.

(** An attribute of [cls]: [None] has none. *)
Definition class_attr (cls : option nclass) : outcome nclass :=
  match cls with Some c => Ok c | None => Raise AttributeError end.

(** [path[-1]] and [path[-2]] *)
Definition path_last (p : path) : outcome string :=
  match rev p with s :: _ => Ok s | [] => Raise IndexError end.
Definition path_last_but_one (p : path) : outcome string :=
  match rev p with _ :: s :: _ => Ok s | _ => Raise IndexError end.

(** The loop [for segment in path[:-1]: term = term.get_object(segment)]
    under its [try]: [None] when [get_object] raised [AttributeError]. *)
Fixpoint follow (term : Term) (segments : list string) : option Term :=
  match segments with
  | [] => Some term
  | segment :: segments =>
      match Term_get_object term segment with
      | Some t => follow t segments
      | None => None
      end
  end.

(** [child.var == k] in a query, for a key of a binding. *)
Definition var_is (k : key) (n : Node) : bool :=
  match k with KInt i => Node_var n =? i | KStr _ => false end.

Definition node_term (n : Node) : option Term :=
  match Node_value n with VTerm t => Some t | _ => None end.

Definition mem_nat (i : nat) (l : list nat) : bool := existsb (Nat.eqb i) l.

Section Dispatch.
Context (X : Externals).

(** [Node.resolve] (l.194-202), inherited by [RootNode]. *)
Definition Node_resolve (w : Term) (p : path) : outcome pyval :=
  Raise NotImplementedError.

(** [NegNode.resolve] (l.258-265) *)
Definition NegNode_resolve (term : Term) (p : path) : outcome pyval :=
  match follow term (removelast p) with
  | None => Ok VNone
  | Some term => Ok (VBool (Term_true term))
  end.

(** [TermNode.resolve] (l.282-295) *)
Definition TermNode_resolve (term : Term) (p : path) : outcome pyval :=
  match follow term (removelast p) with
  | None => Ok VNone
  | Some term => Ok (VTerm term)
  end.

(** [VerbNode.resolve] (l.326-335); l.334 returns [w], a name that is
    bound neither in the function nor in the module. *)
Definition VerbNode_resolve (term : Term) (p : path) : outcome pyval :=
  match follow term (removelast p) with
  | None => Ok VNone
  | Some term =>
      match varpat_match X (Term_name term) with
      | Some _ => Raise NameError
      | None => Ok (VTerm (term_type X term))
      end
  end.

(** [LabelNode.resolve] (l.363-365) *)
Definition LabelNode_resolve (w : Term) (p : path) : outcome pyval :=
  outcome_bind (path_last_but_one p) (fun s => Ok (VStr s)).

Definition resolve (cls : nclass) : Term → path → outcome pyval :=
  match cls with
  | RootNode => Node_resolve
  | NegNode => NegNode_resolve
  | TermNode => TermNode_resolve
  | VerbNode => VerbNode_resolve
  | LabelNode => LabelNode_resolve
  end.

(** [parent.children]: the nodes whose [parent_id] is [parent]. *)
Definition Node_children (s : Network) (parent : nat) : list nat :=
  List.filter
    (fun i => match nodes s !! i with
              | Some n => match Node_parent_id n with
                          | Some p => p =? parent
                          | None => false
                          end
              | None => false
              end)
    (seq 0 (length (nodes s))).

(** [parent.terminal]: the premise node attached to [parent], if any. *)
Definition Node_terminal (s : Network) (parent : nat) : option nat :=
  List.find
    (fun i => match premnodes s !! i with
              | Some p => PremNode_parent_id p =? parent
              | None => false
              end)
    (seq 0 (length (premnodes s))).

(** A query over the children of [parent]. *)
Definition children_where (s : Network) (parent : nat) (f : Node → bool) : list nat :=
  List.filter (fun i => match nodes s !! i with Some n => f n | None => false end)
    (Node_children s parent).

(** [parent.children.join(cls, Node.id==cls.nid).filter(cls.value==value)] *)
Definition literal_children (s : Network) (cls : nclass) (parent : nat) (value : pyval)
  : list nat :=
  children_where s parent
    (fun n => nclass_eqb (Node_ntype n) cls && pyval_eqb (Node_value n) value).

(** The key of the first entry of the binding that holds [value]
    (the [for ... if v == value: ... break] of l.300 and l.341). *)
Definition bound_to (m : Match) (value : pyval) : option key :=
  option_map fst (List.find (fun kv => pyval_eqb (snd kv) value) (Match_items m)).

(** [value.term_type] *)
Definition pyval_term (value : pyval) : outcome Term :=
  match value with VTerm t => Ok t | _ => Raise AttributeError end.

(** [NegNode.get_children] (l.267-269) *)
Definition NegNode_get_children (s : Network) (parent : nat) (m : Match) (value : pyval)
  : outcome (list (list nat)) :=
  Ok [literal_children s NegNode parent value].

(** [TermNode.get_children] (l.297-313) *)
Definition TermNode_get_children (s : Network) (parent : nat) (m : Match) (value : pyval)
  : outcome (list (list nat)) :=
  let children := literal_children s TermNode parent value in
  match bound_to m value with
  | Some k => Ok [children; children_where s parent (var_is k)]
  | None =>
      outcome_bind (pyval_term value) (fun v =>
        let types := term_type X v :: get_bases X (term_type X v) in
        let type_ids := map Term_id types in
        let typed n :=
          nclass_eqb (Node_ntype n) TermNode &&
          match node_term n with
          | Some t => (0 <? Term_var t) && mem_nat (Term_type_id t) type_ids
          | None => false
          end in
        let based n :=
          let base_ids := map Term_id (v :: get_bases X v) in
          match node_term n with
          | Some t => existsb (fun b => mem_nat b base_ids) (Term_base_ids t)
          | None => false
          end in
        let vchildren :=
          if negb (isa X v (thing X))
          then children_where s parent (fun n => typed n && based n)
          else children_where s parent typed in
        Ok [children; vchildren])
  end.

(** [VerbNode.get_children] (l.337-352) *)
Definition VerbNode_get_children (s : Network) (parent : nat) (m : Match) (value : pyval)
  : outcome (list (list nat)) :=
  let children := literal_children s VerbNode parent value in
  match bound_to m value with
  | Some k => Ok [children; []; children_where s parent (var_is k)]
  | None =>
      outcome_bind (pyval_term value) (fun v =>
        let types := term_type X v :: get_bases X (term_type X v) in
        let type_ids := map Term_id types in
        let chvars n :=
          nclass_eqb (Node_ntype n) VerbNode &&
          match node_term n with
          | Some t => 0 <? Term_var t
          | None => false
          end in
        let typed n :=
          match node_term n with
          | Some t => mem_nat (Term_type_id t) type_ids
          | None => false
          end in
        let based n :=
          match node_term n with
          | Some t => existsb (fun b => mem_nat b type_ids) (Term_base_ids t)
          | None => false
          end in
        Ok [children;
            children_where s parent (fun n => chvars n && typed n);
            children_where s parent (fun n => chvars n && based n)])
  end.

(** [LabelNode.get_children] (l.367-369) *)
Definition LabelNode_get_children (s : Network) (parent : nat) (m : Match) (value : pyval)
  : outcome (list (list nat)) :=
  Ok [Node_children s parent].

(** [Node.get_children] (l.225-233), inherited by [RootNode]. *)
Definition Node_get_children (s : Network) (parent : nat) (m : Match) (value : pyval)
  : outcome (list (list nat)) :=
  Raise NotImplementedError.

Definition get_children (cls : nclass)
  : Network → nat → Match → pyval → outcome (list (list nat)) :=
  match cls with
  | RootNode => Node_get_children
  | NegNode => NegNode_get_children
  | TermNode => TermNode_get_children
  | VerbNode => VerbNode_get_children
  | LabelNode => LabelNode_get_children
  end.

(** What [children] holds at l.215: the list of nodes of
    [parent.children.all()] (l.212), or the collections of nodes that
    [get_children] returned (l.214). *)
Variant candidates : Type :=
  | AllChildren (l : list nat)
  | Groups (gs : list (list nat)).

(** l.211-214 *)
Definition select_children (cls : nclass) (s : Network) (parent : nat) (m : Match)
    (value : pyval) : outcome candidates :=
  match value with
  | VNone => Ok (AllChildren (Node_children s parent))
  | _ => outcome_bind (get_children cls s parent m value) (fun gs => Ok (Groups gs))
  end.

(** [for ch in children: for child in ch: body] (l.215-216).  An element
    of [parent.children.all()] is a node, which cannot be iterated. *)
Definition for_candidates (children : candidates) (body : nat → M unit) : M unit :=
  match children with
  | AllChildren [] => ret tt
  | AllChildren (_ :: _) => raise TypeError
  | Groups gs => for_each gs (fun ch => for_each ch body)
  end.

(** l.217-220: the binding handed to [child]. *)
Definition child_match (match_ : nat) (child : nat) (value : pyval) : M nat :=
  let! m := get_match match_ in
  let! new_match := heap_alloc (Match_copy m) in
  let! ch := get_node child in
  do! (if negb (Node_var ch =? 0) then
         let! m := get_match match_ in
         if negb (dict_in (KInt (Node_var ch)) (Match_items m))
         then heap_update new_match (Match_setitem (KInt (Node_var ch)) value)
         else ret tt
       else ret tt) in
  ret new_match.

(** What l.217-220 make of the binding [m] of the caller for the child
    [ch]: a copy, with the entry of the child's slot when the slot is a
    variable's and [m] lacks it. *)
Definition handed_match (m : Match) (ch : Node) (value : pyval) : Match :=
  if negb (Node_var ch =? 0) && negb (dict_in (KInt (Node_var ch)) (Match_items m))
  then Match_setitem (KInt (Node_var ch)) value (Match_copy m)
  else Match_copy m.

(** [PremNode.dispatch] (l.393-419).  l.395 calls [Match()] without the
    argument [fact] that [Match.__init__] requires, and l.396 reads
    [self.vars], an attribute that the class does not declare; no later
    statement is reached. *)
Definition PremNode_dispatch (self : nat) (match_ : nat) : M unit :=
  let! m := Match_call [] in
  raise AttributeError.

(** [Node.dispatch] (l.204-223).  [fuel] bounds the depth of the nested
    calls, as the interpreter does. *)
Fixpoint Node_dispatch (fuel : nat) (parent : nat) (match_ : nat) : M unit :=
  match fuel with
  | 0 => raise RecursionError
  | S fuel =>
      let! pn := get_node parent in
      do! (match Node_child_path pn with
           | [] => ret tt
           | _ :: _ =>
               let p := Node_child_path pn in
               let! ntype_name := lift (path_last p) in
               let! cls := lift (class_attr (Network__get_nclass ntype_name)) in
               let! m := get_match match_ in
               let! value := lift (resolve cls (Match_fact m) p) in
               let! children := (fun s => (select_children cls s parent m value, s)) in
               for_candidates children (fun child =>
                 let! new_match := child_match match_ child value in
                 Node_dispatch fuel child new_match)
           end) in
      let! terminal := gets (fun s => Node_terminal s parent) in
      match terminal with
      | Some t => PremNode_dispatch t match_
      | None => ret tt
      end
  end.

(** The visit of one candidate as the frame condition of [Node.dispatch]
    has it: the child is handed a new object, made from the binding [m]
    that the caller held when it was called, and is dispatched on it. *)
Definition visit_with_fresh_copy (fuel : nat) (m : Match) (value : pyval) (child : nat)
  : M unit :=
  let! ch := get_node child in
  let! new_match := heap_alloc (handed_match m ch value) in
  Node_dispatch fuel child new_match.

(** [Network.add_fact] (l.95-102).  l.101 passes four arguments to
    [dispatch], which declares three ([parent], [match], [network]). *)
Definition Network_add_fact (fuel : nat) (fact : Term) : M unit :=
  let! r := (fun s => the (root s) s) in
  let! rn := get_node r in
  do! (match Node_child_path rn with
       | [] => ret tt
       | _ :: _ =>
           let! m := Match_call [fact] in
           do! heap_update m (fun o =>
                 MkMatch (Match_fact o) (get_paths X fact) (Match_prem o) (Match_items o)) in
           let! ntype_name := lift (path_last (Node_child_path rn)) in
           let! cls := lift (class_attr (Network__get_nclass ntype_name)) in
           call 3 3 4 (Node_dispatch fuel r m)
       end) in
  modify (fun s => set_facts (facts s ++ [fact]) s).

End Dispatch.

(** ** Rules and conditions *)

(** [Varname.name] (l.449-452) *)
Definition Varname_name (self : Varname) : string :=
  Term_name (Varname_var self) +:+ pretty (Varname_name_num self).

(** [CondArg.solve] (l.593-596): l.594 reads [self.var], an attribute that
    [CondArg] does not declare. *)
Definition CondArg_solve (self : CondArg) (match_ : nat) : M pyval :=
  raise AttributeError.

(** [Condition.test] (l.617-621): l.619 iterates over [args], a name that is
    bound neither in the function nor in the module. *)
Definition Condition_test (self : Condition) (match_ : nat) : M pyval :=
  let sargs : list pyval := [] in
  raise NameError.

Definition set_rule (i : nat) (r : Rule) (s : Network) : Network :=
  set_rules (<[i := r]> (rules s)) s.

(** [Rule._get_vname] (l.634-645) as [get_pvarname] calls it (l.650-651),
    with a pair (premise, slot) for [name].  When [_pvn_dict] exists the
    lookup is not guarded against [KeyError], and no key of it is a pair;
    when it does not, the loop that fills it reads [vn.name], an attribute
    that [PVarname] does not declare. *)
Definition Rule_get_pvarname (self : nat) (name : option nat * key) : M (option PVarname) :=
  let! r := get_rule self in
  match Rule__pvn_dict r with
  | Some d => raise KeyError
  | None =>
      do! modify (set_rule self
            (MkRule (Rule_conditions r) (Rule_conds r) (Rule_consecuences r)
                    (Rule_pvars r) (Some []) (Rule_varnames r))) in
      match Rule_pvars r with
      | [] => ret None
      | vn :: _ => raise AttributeError
      end
  end.

Section Firing.
Context (X : Externals).
(** The methods that [Rule.dispatch] calls on the objects it is given. *)
Context (get_pvarname : nat → option nat * key → M (option PVarname)).
Context (test : Condition → nat → M pyval).
Context (add_fact : Term → M unit).

(** l.655-658 *)
Definition translate (self : nat) (prem : option nat) (new_match : nat)
    (items : list (key * pyval)) : M unit :=
  for_each items (fun kv =>
    let! pvar := get_pvarname self (prem, fst kv) in
    match pvar with
    | None => raise AttributeError
    | Some pv =>
        heap_update new_match
          (Match_setitem (KStr (Varname_name (PVarname_varname pv))) (snd kv))
    end).

(** l.660-662: [false] when a condition made the function return. *)
Fixpoint conditions_hold (conds : list Condition) (match_ : nat) : M bool :=
  match conds with
  | [] => ret true
  | cond :: conds =>
      let! v := test cond match_ in
      if negb (truthy v) then ret false else conditions_hold conds match_
  end.

(** l.664-665 *)
Definition assert_consecuences (cons : list Term) (match_ : nat) : M unit :=
  for_each cons (fun con =>
    let! m := get_match match_ in
    add_fact (substitute X con (Match_items m))).

(** [Rule.dispatch] (l.653-666).  l.666 reads [new], a name that is bound
    neither in the function nor in the module. *)
Definition Rule_dispatch_body (self : nat) (match_ : nat) : M pyval :=
  let! m := get_match match_ in
  let! new_match := Match_call [Match_fact m] in
  do! translate self (Match_prem m) new_match (Match_items m) in
  let! r := get_rule self in
  let! pass := conditions_hold (Rule_conditions r) match_ in
  if pass then
    let! r := get_rule self in
    do! assert_consecuences (Rule_consecuences r) match_ in
    raise NameError
  else ret VNone.
End Firing.

(** [Rule.dispatch] with the methods of this module. *)
Definition Rule_dispatch (X : Externals) (fuel : nat) : nat → nat → M pyval :=
  Rule_dispatch_body X Rule_get_pvarname Condition_test (Network_add_fact X fuel).

(** ** Compilation of rules *)

(** The dictionary [vars] of [add_rule]: name to (slot, Varname). *)
Definition vars_dict : Type := list (string * (nat * Varname)).

Section Compile.
Context (X : Externals).

Definition new_node (n : Node) : M nat :=
  fun s => (Ok (length (nodes s)), set_nodes (nodes s ++ [n]) s).
Definition new_premnode (p : PremNode) : M nat :=
  fun s => (Ok (length (premnodes s)), set_premnodes (premnodes s ++ [p]) s).
(** [Rule()] (l.105): a new object, which no premise node lists yet. *)
Definition new_rule (r : Rule) : M nat :=
  fun s => (Ok (length (rules s)), set_rules (rules s ++ [r]) s).

(** The [Varname] that l.137 makes when [name] is a variable that [vars]
    lacks. *)
Definition new_varname (name : string) (value : Term) (rule : nat) (vars : vars_dict)
  : option Varname :=
  match varpat_match X name, assoc_find name vars with
  | Some num, None => Some (MkVarname num value rule)
  | _, _ => None
  end.

(** [Varname.__init__] (l.444-447) sets the [rule] of the new object, which
    joins the [varnames] of that rule through the backref of l.438.  The
    rule is an object that [add_rule] made: its id resolves. *)
Definition attach_varname (rule : nat) (vn : Varname) (s : Network) : Network :=
  match rules s !! rule with
  | Some r =>
      set_rules (<[rule := MkRule (Rule_conditions r) (Rule_conds r) (Rule_consecuences r)
                             (Rule_pvars r) (Rule__pvn_dict r) (Rule_varnames r ++ [vn])]>
                   (rules s)) s
  | None => s
  end.

(** The store after l.133-139 for the term [t]. *)
Definition with_varname (t : Term) (rule : nat) (vars : vars_dict) (s : Network)
  : Network :=
  match new_varname (Term_name t) t rule vars with
  | Some vn => attach_varname rule vn s
  | None => s
  end.

(** l.133-139: the slot of the node for [name], and [vars] afterwards. *)
Definition assign_pnum (name : string) (value : Term) (rule : nat) (vars : vars_dict)
  : nat * vars_dict :=
  match varpat_match X name with
  | Some num =>
      match assoc_find name vars with
      | None =>
          let pnum := length vars in
          (pnum, vars ++ [(name, (pnum, MkVarname num value rule))])
      | Some entry => (fst entry, vars)
      end
  | None => (0, vars)
  end.

(** l.131-152 of [get_or_create_node], from the value that l.130 is to
    resolve.  The [Varname] that l.137 makes joins the [varnames] of the
    rule; the [varnames] of the term itself (the backref of l.441) are with
    the external [Term]. *)
Definition get_or_create_node_from (cls : nclass) (value : pyval) (parent : nat)
    (p : path) (vars : vars_dict) (rule : nat) : M (nat * vars_dict) :=
  let! t := lift (pyval_term value) in
  let name := Term_name t in
  do! modify (with_varname t rule vars) in
  let '(pnum, vars) := assign_pnum name t rule vars in
  do! (match cls with RootNode => raise AttributeError | _ => ret tt end) in
  let! found := gets (fun s =>
    children_where s parent (fun n =>
      nclass_eqb (Node_ntype n) cls && (Node_var n =? pnum)
      && pyval_eqb (Node_value n) value)) in
  match found with
  | [node] => ret (node, vars)
  | _ :: _ :: _ => raise MultipleResultsFound
  | [] =>
      let! node := new_node (MkNode cls value pnum (Some parent) []) in
      let! pn := get_node parent in
      do! (match Node_child_path pn with
           | [] => modify (fun s =>
               set_nodes (<[parent := MkNode (Node_ntype pn) (Node_value pn) (Node_var pn)
                                        (Node_parent_id pn) p]> (nodes s)) s)
           | _ :: _ => ret tt
           end) in
      ret (node, vars)
  end.

(** [Network.get_or_create_node] (l.127-152).  l.130 passes [w], a name
    that is bound neither in the function nor in the module. *)
Definition Network_get_or_create_node (parent : nat) (term : Term) (p : path)
    (vars : vars_dict) (rule : nat) : M (nat * vars_dict) :=
  let! ntype_name := lift (path_last p) in
  let! cls := lift (class_attr (Network__get_nclass ntype_name)) in
  let! value := (raise NameError : M pyval) in
  get_or_create_node_from cls value parent p vars rule.

(** l.110-112 *)
Fixpoint walk_paths (prem : Term) (rule : nat) (paths : list path) (old_node : nat)
    (vars : vars_dict) : M (nat * vars_dict) :=
  match paths with
  | [] => ret (old_node, vars)
  | p :: paths =>
      let! r := Network_get_or_create_node old_node prem p vars rule in
      walk_paths prem rule paths (fst r) (snd r)
  end.

Definition update_premnode (i : nat) (f : PremNode → PremNode) : M unit :=
  fun s => match premnodes s !! i with
           | Some p => (Ok tt, set_premnodes (<[i := f p]> (premnodes s)) s)
           | None => (Raise SystemError, s)
           end.

Definition update_rule (i : nat) (f : Rule → Rule) : M unit :=
  fun s => match rules s !! i with
           | Some r => (Ok tt, set_rules (<[i := f r]> (rules s)) s)
           | None => (Raise SystemError, s)
           end.

(** l.107-120: one premise. *)
Definition compile_premise (rule : nat) (prem : Term) : M unit :=
  let vars : vars_dict := [] in
  let paths := get_paths X prem in
  let! old_node := (fun s => the (root s) s) in
  let! r := walk_paths prem rule paths old_node vars in
  let old_node := fst r in
  let vars := snd r in
  let! terminal := gets (fun s => Node_terminal s old_node) in
  let! pnode := match terminal with
                | Some t => ret t
                | None => new_premnode (MkPremNode old_node [])
                end in
  do! update_premnode pnode (fun p =>
        MkPremNode (PremNode_parent_id p) (PremNode_rules p ++ [rule])) in
  for_each vars (fun e =>
    update_rule rule (fun r =>
      MkRule (Rule_conditions r) (Rule_conds r) (Rule_consecuences r)
             (Rule_pvars r ++ [MkPVarname pnode (fst (snd e)) (snd (snd e))])
             (Rule__pvn_dict r) (Rule_varnames r))).

(** [Network.add_rule] (l.104-125), with [_commit] at its default.  The
    function has no [return] statement: a call that completes yields
    [None].  The result type leaves room for a rule's id. *)
Definition Network_add_rule (prems : list Term) (conds : list Condition)
    (cons : list Term) : M (option nat) :=
  let! rule := new_rule (MkRule [] [] [] [] None []) in
  do! for_each prems (compile_premise rule) in
  do! update_rule rule (fun r =>
        MkRule (Rule_conditions r) conds (Rule_consecuences r) (Rule_pvars r)
               (Rule__pvn_dict r) (Rule_varnames r)) in
  do! for_each cons (fun con =>
        update_rule rule (fun r =>
          MkRule (Rule_conditions r) (Rule_conds r) (Rule_consecuences r ++ [con])
                 (Rule_pvars r) (Rule__pvn_dict r) (Rule_varnames r))) in
  do! (fun s => (session_commit X s, s)) in
  ret None.

(** ** Construction and initialisation *)

(** [Network.initialize] (l.80-86).  [lexicon.initialize()] acts on the
    tables of the lexicon, which the store of this file does not hold.
    The new root is added to the session and committed (l.85-86): it is a
    row from here on. *)
Definition Network_initialize : M unit :=
  do! modify (set_tables true) in
  do! modify (fun s => set_facts (factset_initialize X (facts s)) s) in
  let! r := new_node (MkNode RootNode VNone 0 None []) in
  modify (set_root (Some r)).

(** The rows of [rootnodes]. *)
Definition root_rows (s : Network) : list nat :=
  List.filter
    (fun i => match nodes s !! i with
              | Some n => nclass_eqb (Node_ntype n) RootNode
              | None => false
              end) (seq 0 (length (nodes s))).

(** [session.query(RootNode).one()]; without the tables the query raises
    [OperationalError]. *)
Definition query_root_one : M nat :=
  fun s =>
    if tables s then
      match root_rows s with
      | [r] => (Ok r, s)
      | [] => (Raise NoResultFound, s)
      | _ :: _ :: _ => (Raise MultipleResultsFound, s)
      end
    else (Raise OperationalError, s).

(** [Network.__init__] (l.69-78), run on the store that [dbaddr] names. *)
Definition Network___init__ : M unit :=
  fun s =>
    match query_root_one s with
    | (Ok r, s') => (Ok tt, set_root (Some r) s')
    | (Raise OperationalError, s') => Network_initialize s'
    | (Raise e, s') => (Raise e, s')
    end.
End Compile.

(** ** Sample data

    A small lexicon, persons that love each other, and the stores that the
    examples run on. *)
Module Sample.
Definition word (id : nat) (name : string) (type_id : nat) : Term :=
  MkTerm id name true 0 type_id [] [].

Definition person : Term := word 1 "person" 0.
Definition john : Term := word 2 "john" 1.
Definition mary : Term := word 3 "mary" 1.
Definition isa_verb : Term := word 4 "isa" 0.
Definition loves_verb : Term := word 5 "loves" 0.
(** A variable of type person. *)
Definition Person1 : Term := MkTerm 6 "Person1" true 1 1 [] [].

Definition john_isa_person : Term :=
  MkTerm 10 "isa" true 0 4 [] [("subj", john); ("what", person)].
Definition john_loves_mary : Term :=
  MkTerm 11 "loves" true 0 5 [] [("subj", john); ("who", mary)].
Definition mary_loves_john : Term :=
  MkTerm 12 "loves" true 0 5 [] [("subj", mary); ("who", john)].
(** The premises "Person1 isa person" and "Person1 loves mary". *)
Definition premise_isa : Term :=
  MkTerm 13 "isa" true 0 4 [] [("subj", Person1); ("what", person)].
Definition premise_loves : Term :=
  MkTerm 14 "loves" true 0 5 [] [("subj", Person1); ("who", mary)].
(** A pattern without parts: its list of paths is empty. *)
Definition bare : Term := word 20 "bare" 0.

(** The commit of the sample refuses what the primary key of [prem_to_rule]
    (l.372-375) refuses: the same pair of a premise node and a rule twice. *)
Definition X : Externals := {|
  varpat_match := fun name => if String.eqb name "Person1" then Some 1 else None;
  term_type := fun t =>
    if Term_type_id t =? 1 then person
    else if Term_type_id t =? 4 then isa_verb
    else if Term_type_id t =? 5 then loves_verb
    else t;
  get_bases := fun _ => [];
  isa := fun _ _ => true;
  thing := word 0 "thing" 0;
  get_paths := fun t =>
    match Term_objects t with
    | [] => []
    | _ :: _ => [["_verb"]; ["subj"; "_term"]]
    end;
  substitute := fun con _ => con;
  factset_initialize := fun fs => fs;
  session_commit := fun s =>
    if forallb (fun p => bool_decide (NoDup (PremNode_rules p))) (premnodes s)
    then Ok tt else Raise IntegrityError |}.

Definition empty_store : Network := MkNetwork false [] [] [] [] None [].

(** A binding without entries for [fact]. *)
Definition binding (fact : Term) : Match := Match_new fact None.

(** A store holding one rule with two premises, [isa] and [loves], each
    compiled to a verb node under the root, and the consequence
    [mary_loves_john]. *)
Definition two_premises : Network := {|
  tables := true;
  nodes := [ MkNode RootNode VNone 0 None ["_verb"];
             MkNode VerbNode (VTerm isa_verb) 0 (Some 0) [];
             MkNode VerbNode (VTerm loves_verb) 0 (Some 0) [] ];
  premnodes := [ MkPremNode 1 [0]; MkPremNode 2 [0] ];
  rules := [ MkRule [] [] [mary_loves_john] [] None [] ];
  facts := [];
  root := Some 0;
  heap := [] |}.

(** A negation node with one child, and a fact that lacks the object the
    path of the node goes through. *)
Definition negation_tree : Network := {|
  tables := true;
  nodes := [ MkNode RootNode VNone 0 None ["who"; "_neg"];
             MkNode NegNode (VBool true) 0 (Some 0) [] ];
  premnodes := [];
  rules := [];
  facts := [];
  root := Some 0;
  heap := [binding john_isa_person] |}.

(** A node for a variable in slot 1, and a binding without entries. *)
Definition variable_tree : Network := {|
  tables := true;
  nodes := [ MkNode RootNode VNone 0 None ["subj"; "_term"];
             MkNode TermNode (VTerm Person1) 1 (Some 0) [] ];
  premnodes := [ MkPremNode 1 [] ];
  rules := [];
  facts := [];
  root := Some 0;
  heap := [binding john_loves_mary] |}.

(** A node with two children that the subject [john] of a fact selects: the
    node of [john] itself and the node of a variable in slot 1. *)
Definition sibling_tree : Network := {|
  tables := true;
  nodes := [ MkNode RootNode VNone 0 None ["subj"; "_term"];
             MkNode TermNode (VTerm john) 0 (Some 0) [];
             MkNode TermNode (VTerm Person1) 1 (Some 0) [] ];
  premnodes := [];
  rules := [];
  facts := [];
  root := Some 0;
  heap := [binding john_loves_mary] |}.

(** A store with an empty tree, and three rules without variables: rule 0
    has three conditions, of which the predicate of the second is one that
    fails, rule 1 has one condition, rule 2 none. *)
Definition conditioned : Network := {|
  tables := true;
  nodes := [ MkNode RootNode VNone 0 None [] ];
  premnodes := [ MkPremNode 0 [0; 1; 2] ];
  rules := [ MkRule [MkCondition "yes" []; MkCondition "no" []; MkCondition "boom" []]
               [] [mary_loves_john] [] None [];
             MkRule [MkCondition "boom" []] [] [mary_loves_john] [] None [];
             MkRule [] [] [mary_loves_john] [] None [] ];
  facts := [];
  root := Some 0;
  heap := [binding john_loves_mary] |}.
End Sample.

(** ** Relations between stores *)

(** The computation [c] takes every store to one that [R] relates to it,
    whether it returns or raises. *)
Definition preserves (R : Network → Network → Prop) {A} (c : M A) : Prop :=
  ∀ s, R s (snd (c s)).

(** [s'] is [s] with more objects in the heap: the nodes, the root and the
    objects of [s] are as they were. *)
Definition extends (s s' : Network) : Prop :=
  ∃ ext, s' = set_heap (heap s ++ ext) s.

(** The operations of a network, and the store they leave, whether they
    return or raise: the caller goes on after an exception.  What a commit
    that raised leaves of the session is the library's business; the store
    keeps the objects of the interpreter. *)
Variant operation : Type :=
  | AddFact (fuel : nat) (fact : Term)
  | AddRule (prems : list Term) (conds : list Condition) (cons : list Term)
  | Initialize.

Definition run_operation (X : Externals) (s : Network) (op : operation) : Network :=
  match op with
  | AddFact fuel fact => snd (Network_add_fact X fuel fact s)
  | AddRule prems conds consecuences =>
      snd (Network_add_rule X prems conds consecuences s)
  | Initialize => snd (Network_initialize X s)
  end.

Definition run_operations (X : Externals) (ops : list operation) (s : Network) : Network :=
  fold_left (run_operation X) ops s.

(** The computation [c] raises from every store. *)
Definition always_raises {A} (c : M A) : Prop :=
  ∀ s, is_Raise (fst (c s)).

(** ** Further functions of the module *)

(** [s.split('.')]: the pieces between the dots, one piece at least. *)
Fixpoint split_dot (s : string) : list string :=
  match s with
  | EmptyString => [EmptyString]
  | String c s' =>
      if Ascii.eqb c "."%char then EmptyString :: split_dot s'
      else match split_dot s' with
           | [] => [String c EmptyString]
           | w :: ws => String c w :: ws
           end
  end.

(** ['.'.join(path)] *)
Fixpoint join_dot (p : path) : string :=
  match p with
  | [] => EmptyString
  | [w] => w
  | w :: p' => w +:+ String "."%char (join_dot p')
  end.

(** ['.' in s] *)
Fixpoint has_dot (s : string) : bool :=
  match s with
  | EmptyString => false
  | String c s' => Ascii.eqb c "."%char || has_dot s'
  end.

(** What the property [child_path] (l.178-192) reads and writes of a node:
    the column [child_path_str], [None] until it is set, and the attribute
    [_path], absent on an object that was loaded from its row. *)
Record NodePath : Type := MkNodePath {
  Node_child_path_str : option string;
  Node__path : option path }.

(** [Node._get_path] (l.178-186): the path and the object afterwards. *)
Definition Node__get_path (self : NodePath) : path * NodePath :=
  match Node__path self with
  | Some p => (p, self)
  | None =>
      match Node_child_path_str self with
      | Some str =>
          let p := split_dot str in
          (p, MkNodePath (Node_child_path_str self) (Some p))
      | None => ([], self)
      end
  end.

(** [Node._set_path] (l.188-190) *)
Definition Node__set_path (p : path) (self : NodePath) : NodePath :=
  MkNodePath (Some (join_dot p)) (Some p).

(** The object that a later session loads from the row of [self]. *)
Definition reloaded (self : NodePath) : NodePath :=
  MkNodePath (Node_child_path_str self) None.

(** The loop of l.640-644 over the objects [vns], whose [name] is read by
    [vn_name]: the dictionary is filled in place, and [target] is the last
    object whose name is [name]. *)
Fixpoint fill_vnames {V} (vn_name : V → outcome string) (vns : list V) (name : key)
    (d : dict V) (target : option V) : outcome (option V) * dict V :=
  match vns with
  | [] => (Ok target, d)
  | vn :: vns =>
      match vn_name vn with
      | Raise e => (Raise e, d)
      | Ok n =>
          fill_vnames vn_name vns name (dict_set (KStr n) vn d)
            (if key_eqb (KStr n) name then Some vn else target)
      end
  end.

(** [Rule._get_vname] (l.634-645), from the value [d] of the attribute that
    caches the names ([None] while the rule has no such attribute) and the
    collection [vns]: what the call returns or raises, and the attribute
    afterwards. *)
Definition Rule__get_vname {V} (vn_name : V → outcome string) (d : option (dict V))
    (vns : list V) (name : key) : outcome (option V) * option (dict V) :=
  match d with
  | Some d =>
      match dict_get name d with
      | Some vn => (Ok (Some vn), Some d)
      | None => (Raise KeyError, Some d)
      end
  | None =>
      let r := fill_vnames vn_name vns name [] None in
      (fst r, Some (snd r))
  end.

(** [Rule.get_varname] (l.647-648), over [_vn_dict] and [varnames]. *)
Definition Rule_get_varname (d : option (dict Varname)) (varnames : list Varname)
    (name : key) : outcome (option Varname) * option (dict Varname) :=
  Rule__get_vname (fun vn => Ok (Varname_name vn)) d varnames name.

(** The last of [vns] that is named [name]. *)
Definition last_named (vns : list Varname) (name : key) : option Varname :=
  List.find (fun vn => key_eqb (KStr (Varname_name vn)) name) (rev vns).

(** The entries of [vars] carry the slots 0, 1, 2, ... in their order. *)
Definition well_numbered (vars : vars_dict) : Prop :=
  ∀ i name entry, vars !! i = Some (name, entry) → fst entry = i.

(** Every node of [s] is in [s'] with its class, value, slot and parent, and
    with its [child_path] if it had one. *)
Definition keeps_nodes (s s' : Network) : Prop :=
  ∀ i n, nodes s !! i = Some n →
         ∃ n', nodes s' !! i = Some n'
               ∧ Node_ntype n' = Node_ntype n
               ∧ Node_value n' = Node_value n
               ∧ Node_var n' = Node_var n
               ∧ Node_parent_id n' = Node_parent_id n
               ∧ (Node_child_path n ≠ [] → Node_child_path n' = Node_child_path n).

(** Every rule of [s] is in [s'] as it was, but for one [Varname] at most
    that joined the [varnames] of the rule [rule]. *)
Definition keeps_rules_but_varnames (rule : nat) (s s' : Network) : Prop :=
  length (rules s') = length (rules s)
  ∧ ∀ i r, rules s !! i = Some r →
           ∃ added,
             rules s' !! i
             = Some (MkRule (Rule_conditions r) (Rule_conds r) (Rule_consecuences r)
                       (Rule_pvars r) (Rule__pvn_dict r) (Rule_varnames r ++ added))
             ∧ length added ≤ 1
             ∧ (i ≠ rule → added = []).

(** A premise node of [s] lists [rule]: the rule was appended to its
    [rules] (l.118), and with that the session holds the rule. *)
Definition registered (s : Network) (rule : nat) : bool :=
  existsb (fun p => mem_nat rule (PremNode_rules p)) (premnodes s).

(** Every rule of [s] is in [s'] with the conditions that [Rule.dispatch]
    tests. *)
Definition keeps_conditions (s s' : Network) : Prop :=
  ∀ i r, rules s !! i = Some r →
         ∃ r', rules s' !! i = Some r' ∧ Rule_conditions r' = Rule_conditions r.

(** The query of l.141 for the children of [parent] of class [cls] with slot
    [pnum] and value [value]. *)
Definition matching_children (s : Network) (cls : nclass) (parent pnum : nat)
    (value : pyval) : list nat :=
  children_where s parent (fun n =>
    nclass_eqb (Node_ntype n) cls && (Node_var n =? pnum)
    && pyval_eqb (Node_value n) value).

(** [s'] has the nodes, the facts, the root and the heap of [s]. *)
Definition same_tree (s s' : Network) : Prop :=
  nodes s' = nodes s ∧ facts s' = facts s ∧ root s' = root s ∧ heap s' = heap s.

(** The facts that the calls of [add_fact] among [ops] were given, in the
    order of the calls. *)
Definition added_facts (ops : list operation) : list Term :=
  flat_map (fun op => match op with AddFact _ fact => [fact] | _ => [] end) ops.

(** No call of [initialize] among [ops]. *)
Definition no_initialize (ops : list operation) : Prop :=
  ∀ op, op ∈ ops → op ≠ Initialize.

(** * Properties *)

(** ** Keys and dictionaries *)

Lemma key_eqb_eq a b : key_eqb a b = true ↔ a = b.
Proof.
  destruct a, b; simpl; try (split; [discriminate | intros; discriminate]).
  - rewrite Nat.eqb_eq. split; [congruence | intros [= ->]; reflexivity].
  - rewrite String.eqb_eq. split; [congruence | intros [= ->]; reflexivity].
Qed.

Lemma key_eqb_refl a : key_eqb a a = true.
Proof. apply key_eqb_eq. reflexivity. Qed.

Lemma key_eqb_neq a b : key_eqb a b = false ↔ a ≠ b.
Proof.
  rewrite <- key_eqb_eq. destruct (key_eqb a b); split; congruence.
Qed.

Lemma pyval_eqb_refl v : pyval_eqb v v = true.
Proof.
  destruct v; simpl; auto using Nat.eqb_refl, String.eqb_refl.
  destruct b; reflexivity.
Qed.

Lemma key_eqb_sym a b : key_eqb a b = key_eqb b a.
Proof.
  destruct (key_eqb b a) eqn:E.
  - apply key_eqb_eq in E as ->. apply key_eqb_refl.
  - apply key_eqb_neq. apply key_eqb_neq in E. congruence.
Qed.

Lemma dict_get_set {V} k k' (v : V) d :
  dict_get k (dict_set k' v d) = if key_eqb k k' then Some v else dict_get k d.
Proof.
  induction d as [|[k1 v1] d IH]; simpl.
  - destruct (key_eqb k k'); reflexivity.
  - destruct (key_eqb k' k1) eqn:E1; simpl.
    + apply key_eqb_eq in E1 as <-. destruct (key_eqb k k'); reflexivity.
    + destruct (key_eqb k k1) eqn:E2.
      * apply key_eqb_eq in E2 as ->. rewrite key_eqb_sym, E1. reflexivity.
      * exact IH.
Qed.

Lemma find_app_or {A} (f : A → bool) l l' :
  List.find f (l ++ l')
  = match List.find f l with Some x => Some x | None => List.find f l' end.
Proof.
  induction l as [|x l IH]; simpl; [reflexivity |].
  destruct (f x); [reflexivity | exact IH].
Qed.

Lemma dict_get_Some_elem {V} k (v : V) d : dict_get k d = Some v → (k, v) ∈ d.
Proof.
  induction d as [|[k' v'] d IH]; simpl; [discriminate |].
  destruct (key_eqb k k') eqn:E.
  - apply key_eqb_eq in E as ->. intros [= ->]. left.
  - intros H. right. auto.
Qed.

Lemma dict_get_elem {V} k (v : V) d :
  (k, v) ∈ d → is_Some (dict_get k d).
Proof.
  induction d as [|[k' v'] d IH]; intros Hin.
  - inversion Hin.
  - simpl. destruct (key_eqb k k') eqn:E; [eauto |].
    apply elem_of_cons in Hin as [[= -> ->] | Hin]; [| auto].
    rewrite key_eqb_refl in E. discriminate.
Qed.

Lemma dict_get_own {V} k (v : V) d :
  NoDup (map fst d) → (k, v) ∈ d → dict_get k d = Some v.
Proof.
  induction d as [|[k' v'] d IH]; intros Hnd Hin.
  - inversion Hin.
  - simpl in *. apply NoDup_cons in Hnd as [Hk' Hnd].
    apply elem_of_cons in Hin as [[= -> ->] | Hin].
    + rewrite key_eqb_refl. reflexivity.
    + destruct (key_eqb k k') eqn:E; [| auto].
      apply key_eqb_eq in E as ->. exfalso. apply Hk'.
      apply (list_elem_of_fmap_2 fst) in Hin. exact Hin.
Qed.

Lemma dict_set_new {V} k (v : V) d :
  dict_get k d = None → dict_set k v d = d ++ [(k, v)].
Proof.
  induction d as [|[k' v'] d IH]; simpl; [reflexivity |].
  destruct (key_eqb k k'); [discriminate |].
  intros H. rewrite IH by exact H. reflexivity.
Qed.

Lemma dict_get_app_None {V} k (d1 d2 : dict V) :
  dict_get k d1 = None → dict_get k (d1 ++ d2) = dict_get k d2.
Proof.
  induction d1 as [|[k' v'] d1 IH]; simpl; [reflexivity |].
  destruct (key_eqb k k'); [discriminate | exact IH].
Qed.

(** Rebuilding a dictionary entry by entry gives it back. *)
Lemma fold_setitem_items fact paths prem acc d :
  NoDup (map fst (acc ++ d)) →
  Match_items
    (fold_left (fun nm kv => Match_setitem (fst kv) (snd kv) nm) d
       (MkMatch fact paths prem acc)) = acc ++ d.
Proof.
  revert acc. induction d as [|[k v] d IH]; intros acc Hnd; simpl.
  - rewrite app_nil_r. reflexivity.
  - unfold Match_setitem at 2. simpl.
    rewrite dict_set_new.
    + rewrite IH; rewrite <- app_assoc; [reflexivity | exact Hnd].
    + rewrite fmap_app in Hnd. simpl in Hnd.
      apply NoDup_app in Hnd as (_ & Hdis & _).
      destruct (dict_get k acc) eqn:E; [| reflexivity].
      exfalso. apply (Hdis k); [| left].
      clear -E. induction acc as [|[k' v'] acc IH]; simpl in *; [discriminate |].
      destruct (key_eqb k k') eqn:E'.
      * apply key_eqb_eq in E' as ->. left.
      * right. auto.
Qed.

Lemma Match_copy_items m :
  NoDup (map fst (Match_items m)) → Match_items (Match_copy m) = Match_items m.
Proof.
  intros Hnd. unfold Match_copy, Match_new. simpl.
  apply (fold_setitem_items _ _ _ []). exact Hnd.
Qed.

Lemma fold_setitem_fact d nm :
  Match_fact (fold_left (fun nm kv => Match_setitem (fst kv) (snd kv) nm) d nm)
  = Match_fact nm.
Proof.
  revert nm. induction d as [|kv d IH]; intros nm; simpl; [reflexivity |].
  rewrite IH. reflexivity.
Qed.

Lemma Match_copy_fact m : Match_fact (Match_copy m) = Match_fact m.
Proof.
  unfold Match_copy. cbn [Match_fact].
  rewrite fold_setitem_fact. reflexivity.
Qed.

(** ** Match.merge *)

Lemma Match_merge_python3 self m : Match_merge Python3 self m = Raise TypeError.
Proof. reflexivity. Qed.

(** The entries of [self] pass the test of l.60-62 against [self]. *)
Lemma Match_merge_loop_own self m its rest new_match :
  (∀ k v, (k, v) ∈ its → dict_get k (Match_items self) = Some v) →
  ∃ new_match',
    Match_merge_loop self m (its ++ rest) new_match
    = Match_merge_loop self m rest new_match'.
Proof.
  revert new_match. induction its as [|[k v] its IH]; intros new_match Hown; simpl.
  - eauto.
  - unfold dict_getitem. rewrite (Hown k v) by left.
    rewrite pyval_eqb_refl. simpl.
    destruct (dict_in k (Match_items m));
      apply IH; intros; apply Hown; right; assumption.
Qed.

(** Among entries of [m] that agree with [self], the first whose key [self]
    lacks makes l.61 raise. *)
Lemma Match_merge_loop_new_key self m its new_match k :
  (∀ k v, (k, v) ∈ its → dict_in k (Match_items m) = true) →
  (∀ k v sv, (k, v) ∈ its → dict_get k (Match_items self) = Some sv →
             pyval_eqb sv v = true) →
  (∃ v, (k, v) ∈ its) → dict_get k (Match_items self) = None →
  Match_merge_loop self m its new_match = Raise KeyError.
Proof.
  revert new_match. induction its as [|[k' v'] its IH]; intros new_match Hin Hagree [v Hk] Hnew.
  - inversion Hk.
  - simpl. rewrite (Hin k' v') by left. unfold dict_getitem.
    destruct (dict_get k' (Match_items self)) as [sv|] eqn:E; [| reflexivity].
    rewrite (Hagree k' v' sv) by (left || assumption). simpl.
    apply IH.
    + intros; eapply Hin; right; eassumption.
    + intros; eapply Hagree; [right |]; eassumption.
    + apply elem_of_cons in Hk as [[= <- <-] | Hk]; [congruence | eauto].
    + assumption.
Qed.

(** C4.  [Match.merge] does not return the union of two bindings that agree
    on every shared name as soon as the argument binds a name that [self]
    does not: looking that name up in [self] (l.61) raises [KeyError]; under
    Python 3 the sum of the two item views (l.59) raises [TypeError]. *)
Theorem Match_merge_raises_on_new_key (py : python) (self m : Match) (k : key) :
  NoDup (map fst (Match_items self)) →
  (∀ k v sv, (k, v) ∈ Match_items m → dict_get k (Match_items self) = Some sv →
             pyval_eqb sv v = true) →
  dict_in k (Match_items m) = true →
  dict_in k (Match_items self) = false →
  Match_merge py self m
  = Raise (match py with Python2 => KeyError | Python3 => TypeError end).
Proof.
  intros Hnd Hagree Hm Hself. destruct py; [| reflexivity].
  unfold Match_merge. simpl.
  destruct (Match_merge_loop_own self m (Match_items self) (Match_items m)
              (Match_new (Match_fact self) None)) as [nm ->].
  { intros k' v' Hin. apply dict_get_own; assumption. }
  apply (Match_merge_loop_new_key self m _ nm k).
  - intros k' v' Hin. unfold dict_in.
    destruct (dict_get_elem k' v' _ Hin) as [x ->]. reflexivity.
  - exact Hagree.
  - unfold dict_in in Hm. clear -Hm.
    induction (Match_items m) as [|[k' v'] d IH]; simpl in *; [discriminate |].
    destruct (key_eqb k k') eqn:E.
    + apply key_eqb_eq in E as ->. exists v'. left.
    + destruct (IH Hm) as [v Hv]. exists v. right. exact Hv.
  - unfold dict_in in Hself. destruct (dict_get k (Match_items self)); [discriminate | reflexivity].
Qed.

Lemma Match_merge_raises_on_new_key_witness :
  Match_merge Python2 (Sample.binding Sample.john_loves_mary)
    (Match_setitem (KInt 1) (VTerm Sample.john) (Sample.binding Sample.john_isa_person))
  = Raise KeyError
  ∧ Match_merge Python3 (Sample.binding Sample.john_loves_mary)
      (Match_setitem (KInt 1) (VTerm Sample.john) (Sample.binding Sample.john_isa_person))
    = Raise TypeError.
Proof.
  split.
  - apply (Match_merge_raises_on_new_key Python2 _ _ (KInt 1)).
    + simpl. constructor.
    + simpl. intros k v sv _ H. discriminate H.
    + reflexivity.
    + reflexivity.
  - reflexivity.
Defined.

(** ** Slots of variables (l.133-139) *)

Lemma assign_pnum_literal X name value rule vars :
  varpat_match X name = None → assign_pnum X name value rule vars = (0, vars).
Proof. intros H. unfold assign_pnum. rewrite H. reflexivity. Qed.

Lemma assign_pnum_new X name value rule vars num :
  varpat_match X name = Some num → assoc_find name vars = None →
  assign_pnum X name value rule vars
  = (length vars, vars ++ [(name, (length vars, MkVarname num value rule))]).
Proof. intros H1 H2. unfold assign_pnum. rewrite H1, H2. reflexivity. Qed.

Lemma assign_pnum_again X name value rule vars num entry :
  varpat_match X name = Some num → assoc_find name vars = Some entry →
  assign_pnum X name value rule vars = (fst entry, vars).
Proof. intros H1 H2. unfold assign_pnum. rewrite H1, H2. reflexivity. Qed.

(** Past l.130, the first variable of a premise would be given slot 0, the
    number that marks a node that is no variable: l.136 takes [len(vars)]
    before the name is entered. *)
Lemma first_variable_gets_slot_zero (X : Externals) (name : string) (value : Term)
    (rule num : nat) :
  varpat_match X name = Some num →
  assign_pnum X name value rule [] = (0, [(name, (0, MkVarname num value rule))]).
Proof. intros H. rewrite (assign_pnum_new X name value rule [] num H); reflexivity. Qed.

(** As shipped, l.130 is reached with [w] unbound whenever the path names a
    node class. *)
Lemma Network_get_or_create_node_NameError X parent term p vars rule cls s ntype :
  path_last p = Ok ntype → Network__get_nclass ntype = Some cls →
  Network_get_or_create_node X parent term p vars rule s = (Raise NameError, s).
Proof.
  intros H1 H2. unfold Network_get_or_create_node, bind, lift. rewrite H1, H2. reflexivity.
Qed.

(** C3.  No variable occurrence is given a node or a slot: every call of
    [get_or_create_node] for a path that names a node class raises
    [NameError] at l.130, before l.133-139 look at the name and before
    l.144 makes a node, and leaves the store as it was.  So [add_rule] on a
    premise with a variable raises, and the tree is the root alone. *)
Theorem variable_premise_gets_no_node :
  (∀ (X : Externals) parent term p vars rule s tag cls,
     path_last p = Ok tag → Network__get_nclass tag = Some cls →
     Network_get_or_create_node X parent term p vars rule s = (Raise NameError, s))
  ∧ (let s0 := snd (Network_initialize Sample.X Sample.empty_store) in
     let r := Network_add_rule Sample.X [Sample.premise_isa] [] [] s0 in
     fst r = Raise NameError
     ∧ nodes (snd r) = [MkNode RootNode VNone 0 None []]
     ∧ premnodes (snd r) = []).
Proof.
  split.
  - intros X parent term p vars rule s tag cls Htag Hcls.
    eapply Network_get_or_create_node_NameError; eassumption.
  - repeat split.
Qed.

Lemma variable_premise_gets_no_node_witness :
  Network_get_or_create_node Sample.X 0 Sample.premise_isa ["subj"; "_term"] [] 0
    (snd (Network_initialize Sample.X Sample.empty_store))
  = (Raise NameError, snd (Network_initialize Sample.X Sample.empty_store)).
Proof.
  apply (proj1 variable_premise_gets_no_node Sample.X 0 Sample.premise_isa
           ["subj"; "_term"] [] 0 (snd (Network_initialize Sample.X Sample.empty_store))
           "_term" TermNode);
    reflexivity.
Defined.

(** ** Initialisation *)

(** C8, as the code has it.  Constructing a [Network] over a store that holds
    its tables and one root adopts that root and leaves the rows as they are;
    [initialize] itself always adds a root row and makes it the root. *)
Theorem Network_init_adopts_root_initialize_adds (X : Externals) (s : Network) :
  (∀ r, tables s = true → root_rows s = [r] →
        Network___init__ X s = (Ok tt, set_root (Some r) s))
  ∧ (∃ s', Network_initialize X s = (Ok tt, s')
           ∧ nodes s' = nodes s ++ [MkNode RootNode VNone 0 None []]
           ∧ root s' = Some (length (nodes s))).
Proof.
  split.
  - intros r Ht Hr. unfold Network___init__, query_root_one. rewrite Ht, Hr. reflexivity.
  - eexists. split; [reflexivity |]. split; reflexivity.
Qed.

Lemma Network_init_adopts_root_initialize_adds_witness :
  Network___init__ Sample.X Sample.two_premises
  = (Ok tt, set_root (Some 0) Sample.two_premises).
Proof.
  apply (proj1 (Network_init_adopts_root_initialize_adds Sample.X Sample.two_premises) 0);
    reflexivity.
Defined.

(** C8, as stated, fails: on a store that [initialize] has set up, a second
    call adds a second root, and the store differs. *)
Lemma Network_initialize_twice_differs :
  let s1 := snd (Network_initialize Sample.X Sample.empty_store) in
  let s2 := snd (Network_initialize Sample.X s1) in
  root s1 = Some 0 ∧ root s2 = Some 1 ∧ length (nodes s2) = 2 ∧ s2 ≠ s1.
Proof.
  simpl. repeat split. intros H. discriminate H.
Qed.

(** ** Candidate children (l.211-214) *)

(** C2.  A negation, term or verb node whose path the fact cannot follow
    does not go on without candidates.  Its feature resolves to [None], for
    which l.212 takes the list of all the children; the loop of l.215-216
    expects collections of nodes, and iterating over the first child raises
    [TypeError]: when the node has a child, [Node.dispatch] raises before a
    child is visited or a binding is copied. *)
Theorem unresolved_feature_raises_TypeError (X : Externals) (fuel parent match_ : nat)
    (s : Network) (pn : Node) (m : Match) (tag : string) (cls : nclass)
    (child : nat) (rest : list nat) :
  nodes s !! parent = Some pn →
  path_last (Node_child_path pn) = Ok tag →
  Network__get_nclass tag = Some cls →
  cls = NegNode ∨ cls = TermNode ∨ cls = VerbNode →
  heap s !! match_ = Some m →
  follow (Match_fact m) (removelast (Node_child_path pn)) = None →
  Node_children s parent = child :: rest →
  resolve X cls (Match_fact m) (Node_child_path pn) = Ok VNone
  ∧ select_children X cls s parent m VNone = Ok (AllChildren (child :: rest))
  ∧ Node_dispatch X (S fuel) parent match_ s = (Raise TypeError, s).
Proof.
  intros Hpn Htag Hcls Hkind Hm Hfollow Hch.
  assert (Hres : resolve X cls (Match_fact m) (Node_child_path pn) = Ok VNone).
  { destruct Hkind as [-> | [-> | ->]]; simpl;
      unfold NegNode_resolve, TermNode_resolve, VerbNode_resolve;
      rewrite Hfollow; reflexivity. }
  split; [exact Hres |]. split; [simpl; rewrite Hch; reflexivity |].
  simpl. unfold bind at 1. unfold get_node, the. rewrite Hpn. simpl.
  destruct (Node_child_path pn) as [|seg segs] eqn:Hp; [discriminate Htag |].
  unfold bind, lift, get_match, the. rewrite Htag, Hcls. simpl. rewrite Hm. simpl.
  rewrite Hres. simpl. rewrite Hch. reflexivity.
Qed.

Lemma unresolved_feature_raises_TypeError_witness :
  resolve Sample.X NegNode Sample.john_isa_person ["who"; "_neg"] = Ok VNone
  ∧ Node_dispatch Sample.X 3 0 0 Sample.negation_tree
    = (Raise TypeError, Sample.negation_tree).
Proof.
  destruct (unresolved_feature_raises_TypeError Sample.X 2 0 0 Sample.negation_tree
              (MkNode RootNode VNone 0 None ["who"; "_neg"])
              (Sample.binding Sample.john_isa_person) "_neg" NegNode 1 [])
    as (H1 & _ & H2);
    [reflexivity | reflexivity | reflexivity | left; reflexivity
    | reflexivity | reflexivity | reflexivity |].
  split; [exact H1 | exact H2].
Defined.

(** ** Relations that the operations preserve *)

Section Preserves.
Context (R : Network → Network → Prop).
Context (R_refl : ∀ s, R s s).
Context (R_trans : ∀ a b c, R a b → R b c → R a c).

#[local] Abbreviation preserves := (preserves R).

Lemma preserves_pure {A} (f : Network → outcome A) : preserves (fun s => (f s, s)).
Proof using R_refl. intros s. apply R_refl. Qed.

Lemma preserves_ret {A} (a : A) : preserves (ret a).
Proof using R_refl. apply (preserves_pure (fun _ => Ok a)). Qed.

Lemma preserves_raise {A} e : preserves (raise e : M A).
Proof using R_refl. apply (preserves_pure (fun _ => Raise e)). Qed.

Lemma preserves_lift {A} (o : outcome A) : preserves (lift o).
Proof using R_refl. apply (preserves_pure (fun _ => o)). Qed.

Lemma preserves_gets {A} (f : Network → A) : preserves (gets f).
Proof using R_refl. apply (preserves_pure (fun s => Ok (f s))). Qed.

Lemma preserves_the {A} (f : Network → option A) : preserves (fun s => the (f s) s).
Proof using R_refl. intros s. destruct (f s); apply R_refl. Qed.

Lemma preserves_bind {A B} (c : M A) (k : A → M B) :
  preserves c → (∀ a, preserves (k a)) → preserves (bind c k).
Proof using R_trans.
  intros Hc Hk s. unfold bind. specialize (Hc s).
  destruct (c s) as [[a|e] s1]; simpl in *; [| exact Hc].
  eapply R_trans; [exact Hc | apply Hk].
Qed.

Lemma preserves_for_each {A} (l : list A) (body : A → M unit) :
  (∀ x, preserves (body x)) → preserves (for_each l body).
Proof using R_refl R_trans.
  intros Hb. induction l as [|x l IH]; simpl.
  - apply preserves_ret.
  - apply preserves_bind; [apply Hb | intros _; exact IH].
Qed.

Lemma preserves_call {A} lo hi given (c : M A) : preserves c → preserves (call lo hi given c).
Proof using R_refl.
  intros Hc. unfold call. destruct (_ && _); [exact Hc | apply preserves_raise].
Qed.

Lemma preserves_modify (f : Network → Network) :
  (∀ s, R s (f s)) → preserves (modify f).
Proof. intros Hf s. apply Hf. Qed.
End Preserves.

(** The getters are instances of [preserves_the]. *)
Lemma preserves_get_node R (R_refl : ∀ s, R s s) i : preserves R (get_node i).
Proof. apply (preserves_the R R_refl (fun s => nodes s !! i)). Qed.
Lemma preserves_get_match R (R_refl : ∀ s, R s s) i : preserves R (get_match i).
Proof. apply (preserves_the R R_refl (fun s => heap s !! i)). Qed.
Lemma preserves_get_rule R (R_refl : ∀ s, R s s) i : preserves R (get_rule i).
Proof. apply (preserves_the R R_refl (fun s => rules s !! i)). Qed.

(** What a sequence that returned went through. *)
Lemma bind_Ok_inv {A B} (c : M A) (k : A → M B) s b s' :
  bind c k s = (Ok b, s') → ∃ a s1, c s = (Ok a, s1) ∧ k a s1 = (Ok b, s').
Proof.
  unfold bind. destruct (c s) as [[a|e] s1]; [eauto | discriminate].
Qed.

(** ** Dispatch leaves the bindings it is given as they are *)

Lemma set_heap_id s : set_heap (heap s) s = s.
Proof. destruct s; reflexivity. Qed.

Lemma extends_refl s : extends s s.
Proof. exists []. rewrite app_nil_r, set_heap_id. reflexivity. Qed.

Lemma extends_trans a b c : extends a b → extends b c → extends a c.
Proof.
  intros [e1 ->] [e2 ->]. exists (e1 ++ e2). simpl. rewrite app_assoc. reflexivity.
Qed.

Lemma extends_alloc s m : extends s (set_heap (heap s ++ [m]) s).
Proof. exists [m]. reflexivity. Qed.

Lemma extends_lookup s s' l m : extends s s' → heap s !! l = Some m → heap s' !! l = Some m.
Proof. intros [ext ->] H. simpl. apply lookup_app_l_Some. exact H. Qed.

(** What l.217-220 do when the binding and the child resolve: one new object
    is allocated, the copy of the binding, with the entry of the child's slot
    added when the slot is a variable's and the binding lacks it. *)
Lemma child_match_run match_ child value s m ch :
  heap s !! match_ = Some m → nodes s !! child = Some ch →
  child_match match_ child value s
  = (Ok (length (heap s)),
     set_heap (heap s ++
       [if negb (Node_var ch =? 0) && negb (dict_in (KInt (Node_var ch)) (Match_items m))
        then Match_setitem (KInt (Node_var ch)) value (Match_copy m)
        else Match_copy m]) s).
Proof.
  intros Hm Hch.
  unfold child_match, bind, get_match, get_node, heap_alloc, heap_update, modify, the, ret.
  rewrite Hm. simpl. rewrite Hch. simpl.
  destruct (Node_var ch =? 0); simpl; [reflexivity |].
  rewrite (lookup_app_l_Some _ _ _ _ Hm). simpl.
  destruct (dict_in (KInt (Node_var ch)) (Match_items m)); simpl; [reflexivity |].
  unfold bind, get_match, the. simpl.
  rewrite list_lookup_middle by reflexivity. simpl.
  f_equal. unfold set_heap. simpl. f_equal.
  rewrite insert_app_r_alt by lia. rewrite Nat.sub_diag. reflexivity.
Qed.

Lemma preserves_child_match match_ child value :
  preserves extends (child_match match_ child value).
Proof.
  intros s.
  destruct (heap s !! match_) as [m|] eqn:Hm.
  - destruct (nodes s !! child) as [ch|] eqn:Hch.
    + rewrite (child_match_run _ _ _ _ _ _ Hm Hch). apply extends_alloc.
    + unfold child_match, bind, get_match, get_node, heap_alloc, the.
      rewrite Hm. simpl. rewrite Hch. simpl. apply extends_alloc.
  - unfold child_match, bind, get_match, the. rewrite Hm. simpl. apply extends_refl.
Qed.

Lemma preserves_PremNode_dispatch R (R_refl : ∀ s, R s s) self match_ :
  preserves R (PremNode_dispatch self match_).
Proof. intros s. apply R_refl. Qed.

Lemma PremNode_dispatch_TypeError self match_ s :
  PremNode_dispatch self match_ s = (Raise TypeError, s).
Proof. reflexivity. Qed.

Lemma preserves_for_candidates R (R_refl : ∀ s, R s s)
    (R_trans : ∀ a b c, R a b → R b c → R a c) children body :
  (∀ child, preserves R (body child)) → preserves R (for_candidates children body).
Proof.
  intros Hb. destruct children as [[|? ?]|gs]; simpl.
  - apply preserves_ret, R_refl.
  - apply preserves_raise, R_refl.
  - apply preserves_for_each; [assumption .. |]. intros ch.
    apply preserves_for_each; assumption.
Qed.

Lemma preserves_Node_dispatch X fuel :
  ∀ parent match_, preserves extends (Node_dispatch X fuel parent match_).
Proof.
  pose proof extends_refl as Hr. pose proof extends_trans as Ht.
  induction fuel as [|fuel IH]; intros parent match_; simpl.
  - apply preserves_raise, Hr.
  - apply preserves_bind; [exact Ht | apply preserves_get_node, Hr |]. intros pn.
    apply preserves_bind; [exact Ht | |].
    + destruct (Node_child_path pn) as [|seg segs]; [apply preserves_ret, Hr |].
      apply preserves_bind; [exact Ht | apply preserves_lift, Hr |]. intros ntype_name.
      apply preserves_bind; [exact Ht | apply preserves_lift, Hr |]. intros cls.
      apply preserves_bind; [exact Ht | apply preserves_get_match, Hr |]. intros m.
      apply preserves_bind; [exact Ht | apply preserves_lift, Hr |]. intros value.
      apply preserves_bind; [exact Ht | apply preserves_pure, Hr |]. intros children.
      apply preserves_for_candidates; [exact Hr | exact Ht |]. intros child.
      apply preserves_bind; [exact Ht | apply preserves_child_match |]. intros new_match.
      apply IH.
    + intros _.
      apply preserves_bind; [exact Ht | apply preserves_gets, Hr |]. intros [t|].
      * apply preserves_PremNode_dispatch, Hr.
      * apply preserves_ret, Hr.
Qed.

Lemma Node_children_parent s parent child :
  In child (Node_children s parent) →
  ∃ n, nodes s !! child = Some n ∧ Node_parent_id n = Some parent.
Proof.
  unfold Node_children. intros H. apply filter_In in H as [_ H].
  destruct (nodes s !! child) as [n|]; [| discriminate].
  destruct (Node_parent_id n) as [p|] eqn:E; [| discriminate].
  apply Nat.eqb_eq in H as ->. eauto.
Qed.

Lemma children_where_parent s parent f child :
  child ∈ children_where s parent f →
  ∃ n, nodes s !! child = Some n ∧ Node_parent_id n = Some parent.
Proof.
  intros H. apply list_elem_of_In in H. unfold children_where in H.
  apply filter_In in H as [H _]. apply Node_children_parent. exact H.
Qed.

(** The nodes that a [get_children] returns are children of the node it
    was asked for. *)
Lemma get_children_of_parent X cls s parent m value gs g child :
  get_children X cls s parent m value = Ok gs →
  g ∈ gs → child ∈ g →
  ∃ n, nodes s !! child = Some n ∧ Node_parent_id n = Some parent.
Proof.
  intros Hgs Hg Hchild.
  assert (Hall : child ∈ Node_children s parent →
                 ∃ n, nodes s !! child = Some n ∧ Node_parent_id n = Some parent).
  { intros H. apply Node_children_parent, list_elem_of_In. exact H. }
  destruct cls; simpl in Hgs.
  - discriminate.
  - injection Hgs as <-. apply list_elem_of_singleton in Hg as ->.
    eapply children_where_parent. exact Hchild.
  - unfold TermNode_get_children in Hgs.
    destruct (bound_to m value).
    + injection Hgs as <-. rewrite !elem_of_cons, elem_of_nil in Hg.
      destruct Hg as [-> | [-> | []]]; eapply children_where_parent; exact Hchild.
    + destruct value; simpl in Hgs; try discriminate.
      destruct (isa X t (thing X)); simpl in Hgs; injection Hgs as <-;
        rewrite !elem_of_cons, elem_of_nil in Hg;
        destruct Hg as [-> | [-> | []]]; eapply children_where_parent; exact Hchild.
  - unfold VerbNode_get_children in Hgs.
    destruct (bound_to m value).
    + injection Hgs as <-. rewrite !elem_of_cons, elem_of_nil in Hg.
      destruct Hg as [-> | [-> | [-> | []]]];
        [eapply children_where_parent; exact Hchild
        | inversion Hchild
        | eapply children_where_parent; exact Hchild].
    + destruct value; simpl in Hgs; try discriminate.
      injection Hgs as <-. rewrite !elem_of_cons, elem_of_nil in Hg.
      destruct Hg as [-> | [-> | [-> | []]]]; eapply children_where_parent; exact Hchild.
  - injection Hgs as <-. apply list_elem_of_singleton in Hg as ->. apply Hall. exact Hchild.
Qed.

(** Two loops that run alike from a store run alike in the sequence. *)
Lemma bind_ext_at {A B} (c c' : M A) (k k' : A → M B) s :
  c s = c' s → (∀ a s', c s = (Ok a, s') → k a s' = k' a s') →
  bind c k s = bind c' k' s.
Proof.
  intros E H. unfold bind. rewrite <- E.
  destruct (c s) as [[a|e] s']; [apply H; reflexivity | reflexivity].
Qed.

Lemma for_each_app {A} (l1 l2 : list A) (body : A → M unit) s :
  for_each (l1 ++ l2) body s = (do! for_each l1 body in for_each l2 body) s.
Proof.
  revert s. induction l1 as [|x l1 IH]; intros s; simpl; [reflexivity |].
  unfold bind. destruct (body x s) as [[[]|e] s1]; [| reflexivity].
  rewrite IH. reflexivity.
Qed.

(** The nested loops of l.215-216 visit the candidates of the collections
    in a row. *)
Lemma for_each_concat {A} (gs : list (list A)) (body : A → M unit) s :
  for_each gs (fun ch => for_each ch body) s = for_each (concat gs) body s.
Proof.
  revert s. induction gs as [|g gs IH]; intros s; simpl; [reflexivity |].
  rewrite for_each_app. apply bind_ext_at; [reflexivity |]. intros [] s' _. apply IH.
Qed.

(** As long as the store only gains objects, the body of the loop of
    l.215-221 hands each candidate the binding that the caller held at the
    start, copied: what the visits of the candidates before it added to
    their own bindings is not in it. *)
Lemma visits_hand_fresh_copies X fuel match_ value m s l :
  heap s !! match_ = Some m →
  (∀ child, child ∈ l → is_Some (nodes s !! child)) →
  ∀ s1, extends s s1 →
    for_each l (fun child =>
      let! new_match := child_match match_ child value in
      Node_dispatch X fuel child new_match) s1
    = for_each l (visit_with_fresh_copy X fuel m value) s1.
Proof.
  intros Hm. induction l as [|child l IH]; intros Hex s1 Hext; [reflexivity |].
  destruct (Hex child) as [ch Hch]; [left |].
  assert (Hm1 : heap s1 !! match_ = Some m) by (eapply extends_lookup; eassumption).
  assert (Hch1 : nodes s1 !! child = Some ch) by (destruct Hext as [ext ->]; exact Hch).
  cbn [for_each]. apply bind_ext_at.
  - unfold visit_with_fresh_copy, bind.
    rewrite (child_match_run _ _ _ _ _ _ Hm1 Hch1).
    unfold get_node, the. rewrite Hch1. reflexivity.
  - intros [] s2 Hrun. apply IH.
    + intros c Hc. apply Hex. right. exact Hc.
    + eapply extends_trans; [exact Hext |].
      assert (Hp : preserves extends
                     (let! new_match := child_match match_ child value in
                      Node_dispatch X fuel child new_match)).
      { apply preserves_bind; [exact extends_trans | apply preserves_child_match |].
        intros new_match. apply preserves_Node_dispatch. }
      specialize (Hp s1). rewrite Hrun in Hp. exact Hp.
Qed.

(** C10.  [Node.dispatch] does not change the binding it is given, nor any
    object that exists when it is called: whatever the outcome, the store
    afterwards is the store before with new objects added to the heap.  The
    binding handed to a child is one of those new objects: the copy of the
    caller's binding, with the entry (slot of the child, resolved value)
    added when that slot is a variable's and the binding does not have it.
    And that is what [Node.dispatch] does with every candidate in turn: for
    a resolved value it runs as the sequence of visits in which each
    candidate is handed a new object made from the binding that the caller
    held at the call, followed by the terminal, so that nothing a child
    branch added reaches a sibling. *)
Theorem Node_dispatch_leaves_bindings (X : Externals) :
  (∀ fuel parent match_ s,
     extends s (snd (Node_dispatch X fuel parent match_ s))
     ∧ ∀ l m, heap s !! l = Some m →
              heap (snd (Node_dispatch X fuel parent match_ s)) !! l = Some m)
  ∧ (∀ match_ child value s m ch,
       heap s !! match_ = Some m → nodes s !! child = Some ch →
       NoDup (map fst (Match_items m)) →
       ∃ new_match,
         child_match match_ child value s
         = (Ok (length (heap s)), set_heap (heap s ++ [new_match]) s)
         ∧ new_match = handed_match m ch value
         ∧ heap s !! length (heap s) = None
         ∧ Match_fact new_match = Match_fact m
         ∧ Match_prem new_match = Match_prem m
         ∧ Match_paths new_match = Match_paths m
         ∧ (Match_items new_match = Match_items m
            ∨ (Match_items new_match = Match_items m ++ [(KInt (Node_var ch), value)]
               ∧ Node_var ch ≠ 0
               ∧ dict_get (KInt (Node_var ch)) (Match_items m) = None)))
  ∧ (∀ fuel parent match_ s pn m tag cls value gs,
       nodes s !! parent = Some pn →
       path_last (Node_child_path pn) = Ok tag →
       Network__get_nclass tag = Some cls →
       heap s !! match_ = Some m →
       resolve X cls (Match_fact m) (Node_child_path pn) = Ok value →
       value ≠ VNone →
       get_children X cls s parent m value = Ok gs →
       Node_dispatch X (S fuel) parent match_ s
       = (do! for_each (concat gs) (visit_with_fresh_copy X fuel m value) in
          let! terminal := gets (fun s => Node_terminal s parent) in
          match terminal with
          | Some t => PremNode_dispatch t match_
          | None => ret tt
          end) s).
Proof.
  split; [| split].
  - intros fuel parent match_ s.
    pose proof (preserves_Node_dispatch X fuel parent match_ s) as H.
    split; [exact H |]. intros l m Hl. eapply extends_lookup; eassumption.
  - intros match_ child value s m ch Hm Hch Hnd.
    eexists. split; [apply child_match_run; eassumption |].
    split; [reflexivity |].
    split; [apply lookup_ge_None_2; lia |].
    pose proof (Match_copy_items m Hnd) as Hitems.
    pose proof (Match_copy_fact m) as Hfact.
    destruct (Node_var ch =? 0) eqn:Hv; cbn [negb andb].
    { repeat split; auto. }
    unfold dict_in.
    destruct (dict_get (KInt (Node_var ch)) (Match_items m)) eqn:Hg; cbn [negb andb].
    { repeat split; auto. }
    repeat split; try assumption; try reflexivity. right.
    cbn [Match_setitem Match_items]. rewrite Hitems.
    rewrite dict_set_new by exact Hg.
    repeat split. apply Nat.eqb_neq. exact Hv.
  - intros fuel parent match_ s pn m tag cls value gs Hpn Htag Hcls Hm Hres Hval Hgs.
    cbn [Node_dispatch]. unfold bind at 1. unfold get_node, the. rewrite Hpn.
    unfold ret at 1. cbv iota beta.
    destruct (Node_child_path pn) as [|seg segs] eqn:Hp; [discriminate Htag |].
    apply bind_ext_at; [| reflexivity].
    unfold bind at 1. unfold lift at 1. rewrite Htag.
    unfold bind at 1. unfold lift at 1. rewrite Hcls. cbn [class_attr].
    unfold bind at 1. unfold get_match, the. rewrite Hm. unfold ret at 1. cbv iota beta.
    unfold bind at 1. unfold lift at 1. rewrite Hres.
    unfold bind at 1.
    assert (Hsel : select_children X cls s parent m value = Ok (Groups gs)).
    { unfold select_children. destruct value; [congruence | rewrite Hgs; reflexivity ..]. }
    rewrite Hsel. cbn [for_candidates]. rewrite for_each_concat.
    apply (visits_hand_fresh_copies X fuel match_ value m s (concat gs) Hm);
      [| apply extends_refl].
    intros child Hc. apply list_elem_of_In, in_concat in Hc as (g & Hg & Hc).
    destruct (get_children_of_parent X cls s parent m value gs g child Hgs) as (n & Hn & _);
      [apply list_elem_of_In; exact Hg | apply list_elem_of_In; exact Hc | eauto].
Qed.

Lemma Node_dispatch_leaves_bindings_witness :
  Node_dispatch Sample.X 3 0 0 Sample.sibling_tree
  = (Ok tt,
     set_heap [ Sample.binding Sample.john_loves_mary;
                Sample.binding Sample.john_loves_mary;
                Match_setitem (KInt 1) (VTerm Sample.john)
                  (Sample.binding Sample.john_loves_mary) ]
       Sample.sibling_tree).
Proof.
  rewrite (proj2 (proj2 (Node_dispatch_leaves_bindings Sample.X)) 2 0 0
             Sample.sibling_tree (MkNode RootNode VNone 0 None ["subj"; "_term"])
             (Sample.binding Sample.john_loves_mary) "_term" TermNode
             (VTerm Sample.john) [[1]; [2]]);
    [reflexivity | reflexivity .. | discriminate | reflexivity].
Defined.

(** ** add_fact *)

(** On a store with an empty tree [add_fact] only stores the fact. *)
Lemma Network_add_fact_empty_tree X fuel fact s r rn :
  root s = Some r → nodes s !! r = Some rn → Node_child_path rn = [] →
  Network_add_fact X fuel fact s = (Ok tt, set_facts (facts s ++ [fact]) s).
Proof.
  intros Hr Hrn Hp. unfold Network_add_fact, bind, get_node, the, ret, modify.
  rewrite Hr. simpl. rewrite Hrn. simpl. rewrite Hp. reflexivity.
Qed.

(** On a store whose root has children, [add_fact] allocates the binding and
    raises at l.101 at the latest, before any node is visited and before the
    fact is stored. *)
Lemma Network_add_fact_raises X fuel fact s r rn :
  root s = Some r → nodes s !! r = Some rn → Node_child_path rn ≠ [] →
  ∃ e, Network_add_fact X fuel fact s
       = (Raise e,
          set_heap (heap s ++ [MkMatch fact (get_paths X fact) None []]) s)
       ∧ (e = TypeError ∨ e = AttributeError).
Proof.
  intros Hr Hrn Hp.
  unfold Network_add_fact, bind, get_node, the, ret, modify.
  rewrite Hr. simpl. rewrite Hrn. simpl.
  destruct (Node_child_path rn) as [|seg segs] eqn:Hpath; [congruence |].
  unfold Match_call, heap_alloc, heap_update, bind, get_match, the, modify, lift.
  simpl. rewrite list_lookup_middle by reflexivity. simpl.
  rewrite insert_app_r_alt by lia. rewrite Nat.sub_diag. simpl.
  destruct (path_last (seg :: segs)) as [ntype_name|e] eqn:Hlast.
  - destruct (class_attr (Network__get_nclass ntype_name)) as [cls|e] eqn:Hcls.
    + exists TypeError. split; [reflexivity | left; reflexivity].
    + exists e. split; [reflexivity |]. right.
      unfold class_attr in Hcls. destruct (Network__get_nclass ntype_name); congruence.
  - exfalso. unfold path_last in Hlast.
    destruct (rev (seg :: segs)) eqn:Hrev; [| discriminate].
    apply (f_equal length) in Hrev. rewrite length_rev in Hrev. discriminate.
Qed.

(** C1.  The rule with the premises [isa] and [loves] fires in neither order
    of the two facts.  Through the entry points, [add_rule] raises
    [NameError] at l.130 and compiles no premise, and the two facts are
    stored without a consequence.  On a store that holds the compiled rule,
    each [add_fact] raises [TypeError] at l.101, where [dispatch] is called
    with four arguments, so that no fact is stored, no match is recorded and
    the consequence is never asserted. *)
Theorem join_fires_in_neither_order (fuel : nat) :
  let f1 := Sample.john_isa_person in
  let f2 := Sample.john_loves_mary in
  let s0 := snd (Network_initialize Sample.X Sample.empty_store) in
  let rule := AddRule [Sample.premise_isa; Sample.premise_loves] []
                [Sample.mary_loves_john] in
  let s := Sample.two_premises in
  (fst (Network_add_rule Sample.X [Sample.premise_isa; Sample.premise_loves] []
          [Sample.mary_loves_john] s0) = Raise NameError
   ∧ facts (run_operations Sample.X [rule; AddFact fuel f1; AddFact fuel f2] s0) = [f1; f2]
   ∧ facts (run_operations Sample.X [rule; AddFact fuel f2; AddFact fuel f1] s0) = [f2; f1])
  ∧ (fst (Network_add_fact Sample.X fuel f1 s) = Raise TypeError
     ∧ fst (Network_add_fact Sample.X fuel f2 s) = Raise TypeError
     ∧ facts (run_operations Sample.X [AddFact fuel f1; AddFact fuel f2] s) = []
     ∧ facts (run_operations Sample.X [AddFact fuel f2; AddFact fuel f1] s) = []
     ∧ premnodes (run_operations Sample.X [AddFact fuel f1; AddFact fuel f2] s)
       = premnodes s
     ∧ premnodes (run_operations Sample.X [AddFact fuel f2; AddFact fuel f1] s)
       = premnodes s).
Proof. repeat split. Qed.

(** No call of [add_fact] fires a rule: it leaves the premise nodes and the
    rules as they are and stores at most the fact it was given. *)
Lemma Network_add_fact_never_fires X fuel fact s :
  let s' := snd (Network_add_fact X fuel fact s) in
  premnodes s' = premnodes s ∧ rules s' = rules s
  ∧ (facts s' = facts s ∨ facts s' = facts s ++ [fact])
  ∧ (∀ l m, heap s !! l = Some m → heap s' !! l = Some m).
Proof.
  destruct (root s) as [r|] eqn:Hr.
  - destruct (nodes s !! r) as [rn|] eqn:Hrn.
    + destruct (Node_child_path rn) as [|seg segs] eqn:Hp.
      * rewrite (Network_add_fact_empty_tree X fuel fact s r rn Hr Hrn Hp). simpl.
        repeat split; auto.
      * destruct (Network_add_fact_raises X fuel fact s r rn Hr Hrn) as (e & -> & _);
          [congruence |]. simpl.
        repeat split; auto. intros l m Hl. apply lookup_app_l_Some. exact Hl.
    + unfold Network_add_fact, bind, get_node, the. rewrite Hr. simpl. rewrite Hrn. simpl.
      repeat split; auto.
  - unfold Network_add_fact, bind, the. rewrite Hr. simpl.
    repeat split; auto.
Qed.

Ltac preserves_step Hr Ht :=
  match goal with
  | |- preserves _ (bind _ _) => apply preserves_bind; [exact Ht | | intros ?]
  | |- preserves _ (ret _) => apply preserves_ret, Hr
  | |- preserves _ (raise _) => apply preserves_raise, Hr
  | |- preserves _ (lift _) => apply preserves_lift, Hr
  | |- preserves _ (gets _) => apply preserves_gets, Hr
  | |- preserves _ (get_node _) => apply preserves_get_node, Hr
  | |- preserves _ (get_match _) => apply preserves_get_match, Hr
  | |- preserves _ (get_rule _) => apply preserves_get_rule, Hr
  | |- preserves _ (fun s => the (_ s) s) => apply preserves_the, Hr
  | |- preserves _ (for_each _ _) => apply preserves_for_each; [exact Hr | exact Ht | intros ?]
  | |- preserves _ (match ?x with _ => _ end) => destruct x
  end.

(** ** Relations that compilation preserves *)

(** As shipped, [get_or_create_node] raises and leaves the store as it is. *)
Lemma Network_get_or_create_node_unchanged X parent term p vars rule s :
  ∃ e, Network_get_or_create_node X parent term p vars rule s = (Raise e, s).
Proof.
  unfold Network_get_or_create_node, bind, lift.
  destruct (path_last p) as [tag|e]; [| eauto].
  destruct (class_attr (Network__get_nclass tag)) as [cls|e]; eauto.
Qed.

(** So the walk of l.110-112 leaves the store as it is, whether it returns
    (no path) or raises. *)
Lemma preserves_walk_paths R (R_refl : ∀ s, R s s) X prem rule paths old_node vars :
  preserves R (walk_paths X prem rule paths old_node vars).
Proof.
  intros s. destruct paths as [|p paths]; simpl; [apply R_refl |].
  unfold bind. destruct (Network_get_or_create_node_unchanged X old_node prem p vars rule s)
    as [e ->]. apply R_refl.
Qed.

Section CompileKeeps.
Context (R : Network → Network → Prop).
Context (R_refl : ∀ s, R s s).
Context (R_trans : ∀ a b c, R a b → R b c → R a c).
Context (R_new_premnode : ∀ s p, R s (set_premnodes (premnodes s ++ [MkPremNode p []]) s)).
Context (R_premnode_rules : ∀ s i p rs,
  premnodes s !! i = Some p →
  R s (set_premnodes (<[i := MkPremNode (PremNode_parent_id p) rs]> (premnodes s)) s)).
Context (R_rule_pvars : ∀ s i r pv,
  rules s !! i = Some r →
  R s (set_rules (<[i := MkRule (Rule_conditions r) (Rule_conds r) (Rule_consecuences r)
                          pv (Rule__pvn_dict r) (Rule_varnames r)]> (rules s)) s)).

Lemma preserves_compile_premise X rule prem :
  preserves R (compile_premise X rule prem).
Proof using R_refl R_trans R_new_premnode R_premnode_rules R_rule_pvars.
  unfold compile_premise.
  preserves_step R_refl R_trans; [preserves_step R_refl R_trans |].
  preserves_step R_refl R_trans; [apply preserves_walk_paths, R_refl |].
  preserves_step R_refl R_trans; [preserves_step R_refl R_trans |].
  preserves_step R_refl R_trans.
  { destruct a1; [preserves_step R_refl R_trans |]. intros s. apply R_new_premnode. }
  preserves_step R_refl R_trans.
  { intros s. unfold update_premnode.
    destruct (premnodes s !! a2) eqn:E; simpl; [| apply R_refl].
    apply R_premnode_rules. exact E. }
  preserves_step R_refl R_trans.
  intros s. unfold update_rule.
  destruct (rules s !! rule) eqn:E; simpl; [| apply R_refl].
  apply R_rule_pvars. exact E.
Qed.
End CompileKeeps.

Lemma preserves_update_rule R (R_rules : ∀ s rs, R s (set_rules rs s)) i f :
  preserves R (update_rule i f).
Proof.
  intros s. unfold update_rule. destruct (rules s !! i); simpl; [apply R_rules |].
  rewrite <- (set_heap_id s) at 2. destruct s; apply (R_rules _ _).
Qed.

(** ** add_rule *)

(** C9, as the code has it.  A call of [add_rule] that completes returns
    [None], whatever it was given and whatever the commit did. *)
Theorem Network_add_rule_returns_None (X : Externals) (prems : list Term)
    (conds : list Condition) (cons : list Term) (s s' : Network) (o : option nat) :
  Network_add_rule X prems conds cons s = (Ok o, s') → o = None.
Proof.
  unfold Network_add_rule. intros H.
  repeat (apply bind_Ok_inv in H as (? & ? & _ & H)).
  unfold ret in H. congruence.
Qed.

Lemma Network_add_rule_returns_None_witness :
  let s := snd (Network_initialize Sample.X Sample.empty_store) in
  ∃ o, fst (Network_add_rule Sample.X [] [] [] s) = Ok o ∧ o = None.
Proof.
  exists None. split; [reflexivity |].
  apply (Network_add_rule_returns_None Sample.X [] [] []
           (snd (Network_initialize Sample.X Sample.empty_store))
           (snd (Network_add_rule Sample.X [] [] []
                   (snd (Network_initialize Sample.X Sample.empty_store))))).
  reflexivity.
Defined.

(** C9, as stated, fails: on a network that was just initialised, the call
    [add_rule([], [], [])] completes, and what it returns is [None], the
    identity of no rule. *)
Lemma Network_add_rule_returns_no_rule :
  let s := snd (Network_initialize Sample.X Sample.empty_store) in
  let r := Network_add_rule Sample.X [] [] [] s in
  fst r = Ok None ∧ ∀ rule : nat, fst r ≠ Ok (Some rule).
Proof. split; [reflexivity | intros rule H; discriminate H]. Qed.

(** ** Firing *)

Section FiringProperties.
Context (X : Externals).
Context (get_pvarname : nat → option nat * key → M (option PVarname)).
Context (test : Condition → nat → M pyval).
Context (add_fact : Term → M unit).

(** The loop of l.660-662 stops at the first condition whose test is false
    and leaves the store as that test left it. *)
Lemma conditions_hold_false cs1 c cs2 match_ :
  ∀ s0 s1 s2 v,
    conditions_hold test cs1 match_ s0 = (Ok true, s1) →
    test c match_ s1 = (Ok v, s2) → truthy v = false →
    conditions_hold test (cs1 ++ c :: cs2) match_ s0 = (Ok false, s2).
Proof.
  induction cs1 as [|c1 cs1 IH]; intros s0 s1 s2 v Hpre Hc Hv; simpl in *.
  - unfold ret in Hpre. injection Hpre as <-.
    unfold bind. rewrite Hc, Hv. reflexivity.
  - unfold bind in *. destruct (test c1 match_ s0) as [[v1|e] s0']; [| discriminate].
    destruct (truthy v1); simpl in *; [| discriminate].
    eapply IH; eassumption.
Qed.

(** The loop stops likewise at the first condition whose test raises. *)
Lemma conditions_hold_raise cs1 c cs2 match_ :
  ∀ s0 s1 s2 e,
    conditions_hold test cs1 match_ s0 = (Ok true, s1) →
    test c match_ s1 = (Raise e, s2) →
    conditions_hold test (cs1 ++ c :: cs2) match_ s0 = (Raise e, s2).
Proof.
  induction cs1 as [|c1 cs1 IH]; intros s0 s1 s2 e Hpre Hc; simpl in *.
  - unfold ret in Hpre. injection Hpre as <-.
    unfold bind. rewrite Hc. reflexivity.
  - unfold bind in *. destruct (test c1 match_ s0) as [[v1|e1] s0']; [| discriminate].
    destruct (truthy v1); simpl in *; [| discriminate].
    eapply IH; eassumption.
Qed.

(** [Rule.dispatch] up to the loop over the conditions. *)
Lemma Rule_dispatch_body_conditions self match_ s m s0 r o s2 :
  heap s !! match_ = Some m →
  translate get_pvarname self (Match_prem m) (length (heap s)) (Match_items m)
    (set_heap (heap s ++ [Match_new (Match_fact m) None]) s) = (Ok tt, s0) →
  rules s0 !! self = Some r →
  conditions_hold test (Rule_conditions r) match_ s0 = (o, s2) →
  Rule_dispatch_body X get_pvarname test add_fact self match_ s
  = match o with
    | Ok false => (Ok VNone, s2)
    | Ok true =>
        (let! r := get_rule self in
         do! assert_consecuences X add_fact (Rule_consecuences r) match_ in
         raise NameError) s2
    | Raise e => (Raise e, s2)
    end.
Proof.
  intros Hm Htr Hr Hc.
  unfold Rule_dispatch_body.
  unfold bind at 1. unfold get_match, the. rewrite Hm. simpl.
  unfold bind at 1. unfold heap_alloc.
  unfold bind at 1. rewrite Htr.
  unfold bind at 1. unfold get_rule, the. rewrite Hr. simpl.
  unfold bind at 1. rewrite Hc.
  destruct o as [[|]|e]; reflexivity.
Qed.

End FiringProperties.

(** ** Firing with the methods of the module *)

Lemma always_raises_bind_l {A B} (c : M A) (k : A → M B) :
  always_raises c → always_raises (bind c k).
Proof.
  intros Hc s. unfold bind. specialize (Hc s).
  destruct (c s) as [[a|e] s']; simpl in *; [contradiction | exact I].
Qed.

Lemma always_raises_bind_r {A B} (c : M A) (k : A → M B) :
  (∀ a, always_raises (k a)) → always_raises (bind c k).
Proof.
  intros Hk s. unfold bind.
  destruct (c s) as [[a|e] s']; simpl; [apply Hk | exact I].
Qed.

Lemma always_raises_raise {A} e : always_raises (raise e : M A).
Proof. intros s. exact I. Qed.

(** As shipped, [get_pvarname] returns [None] or raises. *)
Lemma Rule_get_pvarname_no_result self name s pv s' :
  Rule_get_pvarname self name s ≠ (Ok (Some pv), s').
Proof.
  unfold Rule_get_pvarname, bind, get_rule, the, modify, ret, raise.
  destruct (rules s !! self) as [r|]; simpl; [| discriminate].
  destruct (Rule__pvn_dict r); [discriminate |].
  destruct (Rule_pvars r); discriminate.
Qed.

(** As shipped, the translation of a binding with an entry raises. *)
Lemma translate_raises self prem new_match kv items :
  always_raises (translate Rule_get_pvarname self prem new_match (kv :: items)).
Proof.
  unfold translate. simpl. apply always_raises_bind_l. intros s.
  unfold bind.
  destruct (Rule_get_pvarname self (prem, kv.1) s) as [[[pv|]|e] s1] eqn:E; simpl; try exact I.
  exfalso. eapply Rule_get_pvarname_no_result. exact E.
Qed.

(** As shipped, no test of a condition returns. *)
Lemma conditions_hold_shipped conds match_ s :
  conditions_hold Condition_test conds match_ s
  = match conds with
    | [] => (Ok true, s)
    | _ :: _ => (Raise NameError, s)
    end.
Proof. destruct conds; reflexivity. Qed.

(** As shipped, every call of [Rule.dispatch] raises: for a binding with
    entries in l.656-657, for a rule with conditions in l.619, and otherwise
    at l.666. *)
Lemma Rule_dispatch_always_raises X fuel self match_ :
  always_raises (Rule_dispatch X fuel self match_).
Proof.
  unfold Rule_dispatch, Rule_dispatch_body.
  apply always_raises_bind_r. intros m.
  apply always_raises_bind_r. intros new_match.
  destruct (Match_items m) as [|kv items].
  - apply always_raises_bind_r. intros _.
    apply always_raises_bind_r. intros r.
    intros s. unfold bind at 1. rewrite conditions_hold_shipped.
    destruct (Rule_conditions r); [| exact I].
    apply always_raises_bind_r. intros r'.
    apply always_raises_bind_r. intros _. apply always_raises_raise.
  - apply always_raises_bind_l. apply translate_raises.
Qed.

(** C5.  As the module has it, no condition is ever found false:
    [Condition.test] raises [NameError] at l.619, before it calls the
    predicate.  For a rule with a condition and a binding without entries,
    [Rule.dispatch] raises that [NameError] where it was to return; and no
    call of [Rule.dispatch] returns at all. *)
Theorem false_condition_raises_NameError (X : Externals) (fuel self match_ : nat)
    (s : Network) :
  (∀ v, fst (Rule_dispatch X fuel self match_ s) ≠ Ok v)
  ∧ (∀ m r cond conds,
       heap s !! match_ = Some m → Match_items m = [] →
       rules s !! self = Some r → Rule_conditions r = cond :: conds →
       Rule_dispatch X fuel self match_ s
       = (Raise NameError, set_heap (heap s ++ [Match_new (Match_fact m) None]) s)).
Proof.
  split.
  - intros v Hv. pose proof (Rule_dispatch_always_raises X fuel self match_ s) as H.
    rewrite Hv in H. exact H.
  - intros m r cond conds Hm Hnil Hr Hconds.
    unfold Rule_dispatch, Rule_dispatch_body.
    unfold bind at 1. unfold get_match, the. rewrite Hm.
    unfold ret at 1. unfold bind at 1. unfold Match_call, heap_alloc.
    rewrite Hnil. unfold bind at 1. unfold translate. simpl for_each.
    unfold ret at 1. unfold bind at 1. unfold get_rule, the.
    cbn [rules set_heap]. rewrite Hr. unfold ret at 1.
    unfold bind at 1. rewrite conditions_hold_shipped, Hconds. reflexivity.
Qed.

Lemma false_condition_raises_NameError_witness :
  Rule_dispatch Sample.X 3 0 0 Sample.conditioned
  = (Raise NameError,
     set_heap [Sample.binding Sample.john_loves_mary; Sample.binding Sample.john_loves_mary]
       Sample.conditioned).
Proof.
  apply (proj2 (false_condition_raises_NameError Sample.X 3 0 0 Sample.conditioned)
           (Sample.binding Sample.john_loves_mary)
           (MkRule [MkCondition "yes" []; MkCondition "no" []; MkCondition "boom" []]
              [] [Sample.mary_loves_john] [] None [])
           (MkCondition "yes" []) [MkCondition "no" []; MkCondition "boom" []]);
    reflexivity.
Defined.

(** C6.  With the methods of the module the failure of a condition is not
    kept to its rule.  The terminal of the root lists the rules 0, 1 and 2;
    rule 1 has one condition, rule 2 has none.  Whatever the predicate of
    that condition does, its test raises [NameError] at l.619 without
    calling it, and [Rule.dispatch] lets the exception through.  Rule 2,
    dispatched by itself, asserts its consequence (and then raises at
    l.666); in a pass over the terminal it does not fire: the terminal's
    [dispatch] raises at l.395 before it reaches a rule, and [add_fact]
    does not dispatch at all while the root has no path. *)
Theorem raising_condition_is_not_isolated (fuel : nat) :
  let s := Sample.conditioned in
  let b := Sample.binding Sample.john_loves_mary in
  Rule_dispatch Sample.X fuel 1 0 s = (Raise NameError, set_heap [b; b] s)
  ∧ Rule_dispatch Sample.X fuel 2 0 s
    = (Raise NameError, set_facts [Sample.mary_loves_john] (set_heap [b; b] s))
  ∧ Node_terminal s 0 = Some 0
  ∧ PremNode_rules <$> premnodes s !! 0 = Some [0; 1; 2]
  ∧ Node_dispatch Sample.X (S fuel) 0 0 s = (Raise TypeError, s)
  ∧ Network_add_fact Sample.X fuel Sample.john_loves_mary s
    = (Ok tt, set_facts [Sample.john_loves_mary] s).
Proof. repeat split. Qed.

(** [Node.dispatch] called with its three arguments routes the fact to the
    premise node of [isa], whose [dispatch] raises at l.395 before a match
    is recorded. *)
Lemma dispatch_raises_at_the_terminal :
  let r := (let! m := heap_alloc (Sample.binding Sample.john_isa_person) in
            Node_dispatch Sample.X 3 0 m) Sample.two_premises in
  fst r = Raise TypeError
  ∧ premnodes (snd r) = premnodes Sample.two_premises
  ∧ facts (snd r) = [].
Proof. vm_compute. repeat split. Qed.

(** [Node.dispatch] on the tree with a variable node: the child is handed a
    new binding with the entry of its slot, the terminal under it raises, and
    the binding of the caller is as it was. *)
Lemma dispatch_binds_in_a_copy :
  let r := Node_dispatch Sample.X 3 0 0 Sample.variable_tree in
  fst r = Raise TypeError
  ∧ heap (snd r)
    = [ Sample.binding Sample.john_loves_mary;
        Match_setitem (KInt 1) (VTerm Sample.john) (Sample.binding Sample.john_loves_mary) ].
Proof. vm_compute. split; reflexivity. Qed.

(** * Further properties *)

(** ** Bindings *)

Lemma fold_setitem_prem_paths d nm :
  Match_prem (fold_left (fun nm kv => Match_setitem (fst kv) (snd kv) nm) d nm)
  = Match_prem nm
  ∧ Match_paths (fold_left (fun nm kv => Match_setitem (fst kv) (snd kv) nm) d nm)
    = Match_paths nm.
Proof.
  revert nm. induction d as [|kv d IH]; intros nm; simpl; [auto |].
  destruct (IH (Match_setitem kv.1 kv.2 nm)) as [-> ->]. auto.
Qed.

(** X1.  [Match.copy] returns a binding equal to the one copied: the same
    fact, premise and paths, and the same entries in the same order. *)
Theorem Match_copy_is_equal (m : Match) :
  NoDup (map fst (Match_items m)) → Match_copy m = m.
Proof.
  intros Hnd. pose proof (Match_copy_items m Hnd) as Hi.
  pose proof (Match_copy_fact m) as Hf.
  destruct m as [f p pr it]. unfold Match_copy in *. simpl in *.
  rewrite Hi, Hf. reflexivity.
Qed.

Lemma Match_copy_is_equal_witness :
  Match_copy (Match_setitem (KInt 2) (VTerm Sample.mary)
                (Match_setitem (KInt 1) (VTerm Sample.john)
                   (Sample.binding Sample.john_loves_mary)))
  = Match_setitem (KInt 2) (VTerm Sample.mary)
      (Match_setitem (KInt 1) (VTerm Sample.john) (Sample.binding Sample.john_loves_mary)).
Proof.
  apply Match_copy_is_equal. simpl.
  repeat constructor; rewrite ?elem_of_cons, ?elem_of_nil; intros H; intuition congruence.
Defined.

(** The loop of l.59-63 over entries that pass the test of l.60-62. *)
Lemma Match_merge_loop_pass self m its :
  ∀ new_match,
    (∀ k v, (k, v) ∈ its →
            ∃ sv, dict_get k (Match_items self) = Some sv ∧ pyval_eqb sv v = true) →
    Match_merge_loop self m its new_match
    = Ok (Merged (fold_left (fun nm kv => Match_setitem (fst kv) (snd kv) nm) its new_match)).
Proof.
  induction its as [|[k v] its IH]; intros new_match Hpass; simpl; [reflexivity |].
  destruct (Hpass k v) as (sv & Hsv & Heq); [left |].
  unfold dict_getitem. rewrite Hsv, Heq. simpl.
  destruct (dict_in k (Match_items m)); apply IH; intros; apply Hpass; right; assumption.
Qed.

(** The entry that a run of assignments leaves under a key: the value of
    the last assignment to it, if there is one. *)
Lemma fold_setitem_get its :
  ∀ nm k,
    dict_get k (Match_items
                  (fold_left (fun nm kv => Match_setitem (fst kv) (snd kv) nm) its nm))
    = match List.find (fun kv => key_eqb k (fst kv)) (rev its) with
      | Some kv => Some (snd kv)
      | None => dict_get k (Match_items nm)
      end.
Proof.
  induction its as [|[k' v'] its IH]; intros nm k; [reflexivity |].
  cbn [fold_left rev]. rewrite IH, find_app_or.
  destruct (List.find (fun kv => key_eqb k (fst kv)) (rev its)); [reflexivity |].
  cbn [Match_setitem Match_items List.find fst snd]. rewrite dict_get_set.
  destruct (key_eqb k k'); reflexivity.
Qed.

(** X2.  Under Python 2, when every name that [m] binds is bound in [self]
    to an equal value, [Match.merge] returns a new binding for the fact of
    [self], without premise and without paths, that binds the names of
    [self] and no other, each to a value equal to the one [self] has, in
    whatever order the two dictionaries enumerate their entries. *)
Theorem Match_merge_within_self (self m : Match) (self_items m_items : list (key * pyval)) :
  NoDup (map fst (Match_items self)) →
  self_items ≡ₚ Match_items self → m_items ≡ₚ Match_items m →
  (∀ k v, (k, v) ∈ Match_items m →
          ∃ sv, dict_get k (Match_items self) = Some sv ∧ pyval_eqb sv v = true) →
  Match_merge Python2 self m
  = Match_merge_enumerated (Match_items self) (Match_items m) self m
  ∧ ∃ r, Match_merge_enumerated self_items m_items self m = Ok (Merged r)
         ∧ Match_fact r = Match_fact self
         ∧ Match_prem r = None
         ∧ Match_paths r = []
         ∧ (∀ k, is_Some (dict_get k (Match_items r))
                 ↔ is_Some (dict_get k (Match_items self)))
         ∧ (∀ k v sv, dict_get k (Match_items r) = Some v →
                      dict_get k (Match_items self) = Some sv →
                      pyval_eqb sv v = true).
Proof.
  intros Hnd Hps Hpm Hm. split; [reflexivity |].
  assert (Hpass : ∀ k v, (k, v) ∈ self_items ++ m_items →
            ∃ sv, dict_get k (Match_items self) = Some sv ∧ pyval_eqb sv v = true).
  { intros k v Hin. apply elem_of_app in Hin as [Hin | Hin].
    - rewrite Hps in Hin. exists v.
      split; [apply dict_get_own; assumption | apply pyval_eqb_refl].
    - rewrite Hpm in Hin. apply Hm. exact Hin. }
  unfold Match_merge_enumerated. rewrite Match_merge_loop_pass by exact Hpass.
  eexists. split; [reflexivity |].
  rewrite fold_setitem_fact.
  destruct (fold_setitem_prem_paths (self_items ++ m_items)
              (Match_new (Match_fact self) None)) as [-> ->].
  repeat split.
  - rewrite fold_setitem_get. intros [v Hv].
    destruct (List.find _ (rev (self_items ++ m_items))) as [[k' v']|] eqn:Ef;
      [| discriminate Hv].
    apply find_some in Ef as [Hin Hk]. apply key_eqb_eq in Hk. simpl in Hk. subst k'.
    apply in_rev, list_elem_of_In in Hin.
    destruct (Hpass k v' Hin) as (sv & Hsv & _). eauto.
  - rewrite fold_setitem_get. intros [sv Hsv].
    destruct (List.find _ (rev (self_items ++ m_items))) as [kv|] eqn:Ef; [eauto |].
    exfalso. apply dict_get_Some_elem in Hsv. rewrite <- Hps in Hsv.
    assert (Hin : In (k, sv) (rev (self_items ++ m_items))).
    { apply in_rev. rewrite rev_involutive. apply list_elem_of_In.
      apply elem_of_app. left. exact Hsv. }
    pose proof (find_none _ _ Ef _ Hin) as Hk. simpl in Hk.
    rewrite key_eqb_refl in Hk. discriminate Hk.
  - intros k v sv Hv Hsv. rewrite fold_setitem_get in Hv.
    destruct (List.find _ (rev (self_items ++ m_items))) as [[k' v']|] eqn:Ef;
      [| discriminate Hv].
    injection Hv as ->.
    apply find_some in Ef as [Hin Hk]. apply key_eqb_eq in Hk. simpl in Hk. subst k'.
    apply in_rev, list_elem_of_In in Hin.
    destruct (Hpass k v Hin) as (sv' & Hsv' & Heq). congruence.
Qed.

Lemma Match_merge_within_self_witness :
  let self := Match_setitem (KInt 2) (VTerm Sample.mary)
                (Match_setitem (KInt 1) (VTerm Sample.john)
                   (Sample.binding Sample.john_loves_mary)) in
  let m := Match_setitem (KInt 1) (VTerm Sample.john)
             (Sample.binding Sample.john_isa_person) in
  ∃ r, Match_merge_enumerated [(KInt 2, VTerm Sample.mary); (KInt 1, VTerm Sample.john)]
         [(KInt 1, VTerm Sample.john)] self m = Ok (Merged r)
       ∧ Match_fact r = Sample.john_loves_mary
       ∧ (∀ k, is_Some (dict_get k (Match_items r))
               ↔ is_Some (dict_get k (Match_items self))).
Proof.
  intros self m.
  destruct (Match_merge_within_self self m
              [(KInt 2, VTerm Sample.mary); (KInt 1, VTerm Sample.john)]
              [(KInt 1, VTerm Sample.john)])
    as (_ & r & Hr & Hf & _ & _ & Hk & _).
  - simpl. repeat constructor; rewrite ?elem_of_cons, ?elem_of_nil; intros H;
      intuition congruence.
  - simpl. apply Permutation_swap.
  - reflexivity.
  - simpl. intros k v Hin. apply list_elem_of_singleton in Hin as [= -> ->].
    eexists. split; reflexivity.
  - exists r. repeat split; try assumption; apply Hk.
Defined.

(** The loop of l.59-63 over entries whose names [self] binds: the first
    entry whose value differs makes it return [False]. *)
Lemma Match_merge_loop_conflict self m its :
  ∀ new_match,
    (∀ k v, (k, v) ∈ its → dict_in k (Match_items m) = true) →
    (∀ k v, (k, v) ∈ its → is_Some (dict_get k (Match_items self))) →
    (∃ k v sv, (k, v) ∈ its ∧ dict_get k (Match_items self) = Some sv
               ∧ pyval_eqb sv v = false) →
    Match_merge_loop self m its new_match = Ok MergeFalse.
Proof.
  induction its as [|[k v] its IH]; intros new_match Hm Hself (k0 & v0 & sv0 & Hin & Hsv & Hne).
  - inversion Hin.
  - simpl. rewrite (Hm k v) by left. unfold dict_getitem.
    destruct (Hself k v) as [sv Hk]; [left |]. rewrite Hk.
    destruct (pyval_eqb sv v) eqn:E; simpl; [| reflexivity].
    apply IH.
    + intros; eapply Hm; right; eassumption.
    + intros; eapply Hself; right; eassumption.
    + apply elem_of_cons in Hin as [[= -> ->] | Hin]; [congruence |].
      exists k0, v0, sv0. auto.
Qed.

(** X3.  Under Python 2, when [self] binds every name that [m] binds and one
    of them to a different value, [Match.merge] returns [False]. *)
Theorem Match_merge_conflict (self m : Match) (k : key) (v sv : pyval) :
  NoDup (map fst (Match_items self)) →
  (∀ k v, (k, v) ∈ Match_items m → is_Some (dict_get k (Match_items self))) →
  (k, v) ∈ Match_items m →
  dict_get k (Match_items self) = Some sv →
  pyval_eqb sv v = false →
  Match_merge Python2 self m = Ok MergeFalse.
Proof.
  intros Hnd Hsub Hin Hsv Hne. unfold Match_merge. simpl.
  destruct (Match_merge_loop_own self m (Match_items self) (Match_items m)
              (Match_new (Match_fact self) None)) as [nm ->].
  { intros k' v' H'. apply dict_get_own; assumption. }
  apply Match_merge_loop_conflict.
  - intros k' v' H'. unfold dict_in. destruct (dict_get_elem k' v' _ H') as [x ->]. reflexivity.
  - exact Hsub.
  - exists k, v, sv. auto.
Qed.

Lemma Match_merge_conflict_witness :
  Match_merge Python2
    (Match_setitem (KInt 1) (VTerm Sample.john) (Sample.binding Sample.john_loves_mary))
    (Match_setitem (KInt 1) (VTerm Sample.mary) (Sample.binding Sample.john_isa_person))
  = Ok MergeFalse.
Proof.
  apply (Match_merge_conflict _ _ (KInt 1) (VTerm Sample.mary) (VTerm Sample.john)).
  - simpl. repeat constructor. rewrite elem_of_nil. tauto.
  - simpl. intros k v Hin. apply list_elem_of_singleton in Hin as [= -> ->]. simpl. eauto.
  - simpl. left.
  - reflexivity.
  - reflexivity.
Defined.

(** ** The path of a node *)

Lemma split_dot_plain w : has_dot w = false → split_dot w = [w].
Proof.
  induction w as [|c w IH]; simpl; [reflexivity |].
  intros H. apply orb_false_iff in H as [Hc Hw]. rewrite Hc, (IH Hw). reflexivity.
Qed.

Lemma split_dot_first w rest :
  has_dot w = false → split_dot (w +:+ String "."%char rest) = w :: split_dot rest.
Proof.
  induction w as [|c w IH]; simpl; [reflexivity |].
  intros H. apply orb_false_iff in H as [Hc Hw]. rewrite Hc.
  change (String.append w (String "."%char rest)) with (w +:+ String "."%char rest).
  rewrite (IH Hw). reflexivity.
Qed.

Lemma split_join_dot p :
  p ≠ [] → (∀ w, w ∈ p → has_dot w = false) → split_dot (join_dot p) = p.
Proof.
  induction p as [|w p IH]; intros Hne Hdots; [congruence |].
  destruct p as [|w2 p].
  - simpl. apply split_dot_plain. apply Hdots. left.
  - change (join_dot (w :: w2 :: p)) with (w +:+ String "."%char (join_dot (w2 :: p))).
    rewrite split_dot_first by (apply Hdots; left).
    rewrite IH; [reflexivity | discriminate |].
    intros w' Hw'. apply Hdots. right. exact Hw'.
Qed.

(** X4.  A [child_path] that is set and then read from the row by an object
    that does not hold the cached tuple comes back as it was, provided it is
    not empty and no segment holds a dot.  The empty path does not: it comes
    back as the tuple of one empty segment, which counts as a path.  A node
    whose path was never set reads the empty tuple. *)
Theorem child_path_survives_reload :
  (∀ (p : path) (self : NodePath),
     p ≠ [] → (∀ w, w ∈ p → has_dot w = false) →
     fst (Node__get_path (reloaded (Node__set_path p self))) = p)
  ∧ (∀ self, fst (Node__get_path (reloaded (Node__set_path [] self))) = [EmptyString])
  ∧ Node__get_path (MkNodePath None None) = ([], MkNodePath None None).
Proof.
  split; [| split; reflexivity].
  intros p self Hne Hdots. simpl. apply split_join_dot; assumption.
Qed.

Lemma child_path_survives_reload_witness :
  fst (Node__get_path (reloaded (Node__set_path ["subj"; "_term"] (MkNodePath None None))))
  = ["subj"; "_term"].
Proof.
  apply (proj1 child_path_survives_reload).
  - discriminate.
  - intros w Hw. rewrite !elem_of_cons, elem_of_nil in Hw.
    destruct Hw as [-> | [-> | []]]; reflexivity.
Defined.

(** ** resolve *)

(** X5.  [LabelNode.resolve] does not look at the fact: for a path of two
    segments or more it returns the segment before the last, and for a
    shorter path it raises [IndexError]. *)
Theorem LabelNode_resolve_role (w : Term) (p : path) :
  (length p < 2 → LabelNode_resolve w p = Raise IndexError)
  ∧ (∀ pre role tag, p = pre ++ [role; tag] → LabelNode_resolve w p = Ok (VStr role)).
Proof.
  split.
  - intros Hlen. destruct p as [|a [|b p]]; simpl in *; [reflexivity | reflexivity | lia].
  - intros pre role tag ->. unfold LabelNode_resolve, path_last_but_one.
    rewrite rev_app_distr. reflexivity.
Qed.

Lemma LabelNode_resolve_role_witness :
  LabelNode_resolve Sample.john_loves_mary ["who"] = Raise IndexError
  ∧ LabelNode_resolve Sample.john_loves_mary ["who"; "_label"] = Ok (VStr "who").
Proof.
  split.
  - apply (proj1 (LabelNode_resolve_role Sample.john_loves_mary ["who"])). simpl. lia.
  - apply (proj2 (LabelNode_resolve_role Sample.john_loves_mary ["who"; "_label"])
             [] "who" "_label").
    reflexivity.
Defined.

(** X6.  No [resolve] reads the last segment of the path, the tag of the
    node class: the objects are followed along the segments before it.  For
    a path that is the tag alone, a term node resolves to the fact itself
    and a negation node to the fact's own flag. *)
Theorem resolve_ignores_the_tag (X : Externals) (cls : nclass) (term : Term)
    (segments : list string) (tag tag' : string) :
  resolve X cls term (segments ++ [tag]) = resolve X cls term (segments ++ [tag'])
  ∧ resolve X TermNode term [tag] = Ok (VTerm term)
  ∧ resolve X NegNode term [tag] = Ok (VBool (Term_true term)).
Proof.
  split; [| split; reflexivity].
  destruct cls; simpl;
    unfold NegNode_resolve, TermNode_resolve, VerbNode_resolve, LabelNode_resolve,
      path_last_but_one;
    rewrite ?removelast_last, ?rev_app_distr; reflexivity.
Qed.

(** ** Dispatch *)

(** X7.  When the feature of a node cannot be resolved and the node has a
    child, [Node.dispatch] raises [TypeError] and changes nothing: l.212 puts
    the nodes themselves where l.216 expects collections of nodes. *)
Theorem Node_dispatch_unresolved_raises (X : Externals) (fuel parent match_ : nat)
    (s : Network) (pn : Node) (m : Match) (tag : string) (cls : nclass)
    (child : nat) (rest : list nat) :
  nodes s !! parent = Some pn →
  path_last (Node_child_path pn) = Ok tag →
  Network__get_nclass tag = Some cls →
  heap s !! match_ = Some m →
  resolve X cls (Match_fact m) (Node_child_path pn) = Ok VNone →
  Node_children s parent = child :: rest →
  Node_dispatch X (S fuel) parent match_ s = (Raise TypeError, s).
Proof.
  intros Hpn Htag Hcls Hm Hres Hch. simpl.
  unfold bind at 1. unfold get_node, the. rewrite Hpn. simpl.
  destruct (Node_child_path pn) as [|seg segs] eqn:Hp; [discriminate Htag |].
  unfold bind, lift, get_match, the. rewrite Htag, Hcls. simpl. rewrite Hm. simpl.
  rewrite Hres. simpl. rewrite Hch. reflexivity.
Qed.

Lemma Node_dispatch_unresolved_raises_witness :
  Node_dispatch Sample.X 3 0 0 Sample.negation_tree = (Raise TypeError, Sample.negation_tree).
Proof.
  apply (Node_dispatch_unresolved_raises Sample.X 2 0 0 Sample.negation_tree
           (MkNode RootNode VNone 0 None ["who"; "_neg"])
           (Sample.binding Sample.john_isa_person) "_neg" NegNode 1 []);
    reflexivity.
Defined.

Lemma extends_terminal s s' parent :
  extends s s' → Node_terminal s' parent = Node_terminal s parent.
Proof. intros [ext ->]. reflexivity. Qed.

(** What follows the visit of the children (l.222-223) raises when the node
    has a terminal, if the visit left the nodes as they were. *)
Lemma terminal_dispatch_raises parent match_ t (c : M unit) s :
  preserves extends c → Node_terminal s parent = Some t →
  is_Raise (fst ((do! c in
                  let! terminal := gets (fun s => Node_terminal s parent) in
                  match terminal with
                  | Some t => PremNode_dispatch t match_
                  | None => ret tt
                  end) s)).
Proof.
  intros Hc Ht. unfold bind at 1. specialize (Hc s).
  destruct (c s) as [[[]|e] s1]; simpl in *; [| exact I].
  unfold bind, gets. rewrite (extends_terminal s s1 parent Hc), Ht. exact I.
Qed.

(** X8.  A node that holds a premise terminal cannot be dispatched to the
    end: whatever its children do, [Node.dispatch] raises, since the
    terminal's own [dispatch] raises at l.395. *)
Theorem Node_dispatch_terminal_raises (X : Externals) (fuel parent match_ t : nat)
    (s : Network) :
  Node_terminal s parent = Some t →
  is_Raise (fst (Node_dispatch X fuel parent match_ s)).
Proof.
  intros Ht. destruct fuel as [|fuel]; [exact I |]. simpl.
  unfold bind at 1. unfold get_node, the.
  destruct (nodes s !! parent) as [pn|]; simpl; [| exact I].
  apply (terminal_dispatch_raises parent match_ t); [| exact Ht].
  pose proof extends_refl as Hr. pose proof extends_trans as Htr.
  destruct (Node_child_path pn) as [|seg segs]; [apply preserves_ret, Hr |].
  apply preserves_bind; [exact Htr | apply preserves_lift, Hr |]. intros ntype_name.
  apply preserves_bind; [exact Htr | apply preserves_lift, Hr |]. intros cls.
  apply preserves_bind; [exact Htr | apply preserves_get_match, Hr |]. intros m.
  apply preserves_bind; [exact Htr | apply preserves_lift, Hr |]. intros value.
  apply preserves_bind; [exact Htr | apply preserves_pure, Hr |]. intros children.
  apply preserves_for_candidates; [exact Hr | exact Htr |]. intros child.
  apply preserves_bind; [exact Htr | apply preserves_child_match |]. intros new_match.
  apply preserves_Node_dispatch.
Qed.

Lemma Node_dispatch_terminal_raises_witness :
  is_Raise (fst (Node_dispatch Sample.X 3 1 0 Sample.variable_tree)).
Proof.
  apply (Node_dispatch_terminal_raises Sample.X 3 1 0 0). reflexivity.
Defined.

(** X9.  Every node that a [get_children] returns, in whichever of its
    collections, is a child of the node it was asked for. *)
Theorem candidates_are_children (X : Externals) (cls : nclass) (s : Network)
    (parent : nat) (m : Match) (value : pyval) (gs : list (list nat))
    (g : list nat) (child : nat) :
  get_children X cls s parent m value = Ok gs →
  g ∈ gs → child ∈ g →
  ∃ n, nodes s !! child = Some n ∧ Node_parent_id n = Some parent.
Proof. apply get_children_of_parent. Qed.

Lemma candidates_are_children_witness :
  ∃ n, nodes Sample.two_premises !! 1 = Some n ∧ Node_parent_id n = Some 0.
Proof.
  apply (candidates_are_children Sample.X VerbNode Sample.two_premises 0
           (Sample.binding Sample.john_isa_person) (VTerm Sample.isa_verb)
           [[1]; []; []] [1] 1).
  - reflexivity.
  - left.
  - left.
Defined.

(** ** add_fact *)



(** X11.  Once the root has children, [add_fact] raises before the fact is
    stored: [TypeError] when the last segment of the root's path names a
    node class, [AttributeError] when it does not.  The binding it made for
    the fact, with the fact's paths, is all that it leaves. *)
Theorem Network_add_fact_error (X : Externals) (fuel : nat) (fact : Term) (s : Network)
    (r : nat) (rn : Node) (tag : string) :
  root s = Some r → nodes s !! r = Some rn →
  path_last (Node_child_path rn) = Ok tag →
  Network_add_fact X fuel fact s
  = (Raise (match Network__get_nclass tag with
            | Some _ => TypeError
            | None => AttributeError
            end),
     set_heap (heap s ++ [MkMatch fact (get_paths X fact) None []]) s).
Proof.
  intros Hr Hrn Htag.
  unfold Network_add_fact, bind, get_node, the, ret, modify.
  rewrite Hr. simpl. rewrite Hrn. simpl.
  destruct (Node_child_path rn) as [|seg segs] eqn:Hpath; [discriminate Htag |].
  unfold Match_call, heap_alloc, heap_update, bind, get_match, the, modify, lift.
  simpl. rewrite list_lookup_middle by reflexivity. simpl.
  rewrite insert_app_r_alt by lia. rewrite Nat.sub_diag. simpl.
  rewrite Htag. destruct (Network__get_nclass tag); reflexivity.
Qed.

Lemma Network_add_fact_error_witness :
  Network_add_fact Sample.X 3 Sample.john_isa_person Sample.two_premises
  = (Raise TypeError,
     set_heap [MkMatch Sample.john_isa_person [["_verb"]; ["subj"; "_term"]] None []]
       Sample.two_premises).
Proof.
  apply (Network_add_fact_error Sample.X 3 Sample.john_isa_person Sample.two_premises 0
           (MkNode RootNode VNone 0 None ["_verb"]) "_verb");
    reflexivity.
Defined.

(** ** add_rule *)

(** X12.  [add_rule] with a first premise that has a path raises [NameError]
    at l.130, whatever the other arguments: no node and no premise node is
    made, the [Rule] object of l.105 is listed by no premise node, so that
    the session never holds it, and l.125 is not reached: nothing is
    committed. *)
Theorem Network_add_rule_NameError (X : Externals) (prem : Term) (prems : list Term)
    (conds : list Condition) (cons : list Term) (s : Network) (r : nat)
    (p : path) (paths : list path) (tag : string) (cls : nclass) :
  root s = Some r →
  get_paths X prem = p :: paths →
  path_last p = Ok tag → Network__get_nclass tag = Some cls →
  fst (Network_add_rule X (prem :: prems) conds cons s) = Raise NameError
  ∧ nodes (snd (Network_add_rule X (prem :: prems) conds cons s)) = nodes s
  ∧ premnodes (snd (Network_add_rule X (prem :: prems) conds cons s)) = premnodes s
  ∧ (∀ rule, registered (snd (Network_add_rule X (prem :: prems) conds cons s)) rule
             = registered s rule).
Proof.
  intros Hr Hpaths Htag Hcls.
  assert (Hrun : Network_add_rule X (prem :: prems) conds cons s
                 = (Raise NameError,
                    set_rules (rules s ++ [MkRule [] [] [] [] None []]) s)).
  { unfold Network_add_rule, new_rule. unfold bind at 1. unfold bind at 1.
    simpl for_each. unfold bind at 1. unfold compile_premise. unfold bind at 1. unfold the.
    cbn [root set_rules]. rewrite Hr. unfold ret at 1. rewrite Hpaths. simpl walk_paths.
    unfold bind at 1. unfold bind at 1.
    rewrite (Network_get_or_create_node_NameError X _ _ _ _ _ cls _ tag Htag Hcls).
    reflexivity. }
  rewrite Hrun. repeat split.
Qed.

Lemma Network_add_rule_NameError_witness :
  let r := Network_add_rule Sample.X [Sample.premise_isa; Sample.premise_loves] []
             [Sample.mary_loves_john] Sample.conditioned in
  fst r = Raise NameError
  ∧ nodes (snd r) = nodes Sample.conditioned
  ∧ premnodes (snd r) = premnodes Sample.conditioned.
Proof.
  destruct (Network_add_rule_NameError Sample.X Sample.premise_isa [Sample.premise_loves]
              [] [Sample.mary_loves_john] Sample.conditioned 0
              ["_verb"] [["subj"; "_term"]] "_verb" VerbNode)
    as (H1 & H2 & H3 & _); try reflexivity.
  repeat split; assumption.
Defined.

Lemma find_none_app {A} (f : A → bool) l l' :
  List.find f l = None → List.find f (l ++ l') = List.find f l'.
Proof.
  induction l as [|x l IH]; simpl; [reflexivity |].
  destruct (f x); [discriminate | exact IH].
Qed.

Lemma find_ext_in {A} (f g : A → bool) l :
  (∀ x, In x l → f x = g x) → List.find f l = List.find g l.
Proof.
  induction l as [|x l IH]; intros H; simpl; [reflexivity |].
  rewrite (H x) by (left; reflexivity). destruct (g x); [reflexivity |].
  apply IH. intros y Hy. apply H. right. exact Hy.
Qed.

(** The premise node that l.116-117 attach to a node without terminal is the
    terminal of that node afterwards. *)
Lemma Node_terminal_new s parent p :
  Node_terminal s parent = None → PremNode_parent_id p = parent →
  Node_terminal (set_premnodes (premnodes s ++ [p]) s) parent
  = Some (length (premnodes s)).
Proof.
  intros Hnone Hp. unfold Node_terminal in *. simpl.
  rewrite length_app. simpl. rewrite Nat.add_1_r, seq_S. simpl.
  rewrite find_none_app.
  - simpl. rewrite list_lookup_middle by reflexivity. rewrite Hp, Nat.eqb_refl. reflexivity.
  - rewrite <- Hnone. apply find_ext_in. intros i Hi. apply in_seq in Hi.
    rewrite lookup_app_l by lia. reflexivity.
Qed.

(** X13.  Two premises without paths are both terminated at the root: the
    first attaches a premise node to it, the second finds that node and
    adds its rule to it, so that the root has one terminal, which lists
    both rules. *)
Theorem empty_premises_share_the_terminal (X : Externals) (rule rule' : nat)
    (prem prem' : Term) (s : Network) (r : nat) :
  root s = Some r →
  get_paths X prem = [] → get_paths X prem' = [] →
  Node_terminal s r = None →
  (do! compile_premise X rule prem in compile_premise X rule' prem') s
  = (Ok tt, set_premnodes (premnodes s ++ [MkPremNode r [rule; rule']]) s).
Proof.
  intros Hr Hp Hp' Hnone.
  assert (H1 : compile_premise X rule prem s
               = (Ok tt, set_premnodes (premnodes s ++ [MkPremNode r [rule]]) s)).
  { unfold compile_premise. rewrite Hp. unfold bind at 1. unfold the. rewrite Hr.
    unfold ret at 1. simpl walk_paths. unfold bind at 1. unfold ret at 1. cbn [fst snd].
    unfold bind at 1. unfold gets. rewrite Hnone.
    unfold bind at 1. unfold new_premnode. unfold bind at 1. unfold update_premnode.
    cbn [premnodes set_premnodes]. rewrite list_lookup_middle by reflexivity.
    simpl. unfold ret. f_equal. unfold set_premnodes. simpl. f_equal.
    rewrite insert_app_r_alt by lia. rewrite Nat.sub_diag. reflexivity. }
  unfold bind at 1. rewrite H1.
  set (s1 := set_premnodes (premnodes s ++ [MkPremNode r [rule]]) s).
  assert (Ht : Node_terminal s1 r = Some (length (premnodes s)))
    by (apply Node_terminal_new; [exact Hnone | reflexivity]).
  unfold compile_premise. rewrite Hp'. unfold bind at 1. unfold the.
  change (root s1) with (root s). rewrite Hr.
  unfold ret at 1. simpl walk_paths. unfold bind at 1. unfold ret at 1. cbn [fst snd].
  unfold bind at 1. unfold gets. rewrite Ht.
  unfold bind at 1. unfold ret at 1. unfold bind at 1. unfold update_premnode.
  subst s1. cbn [premnodes set_premnodes]. rewrite list_lookup_middle by reflexivity.
  simpl. unfold ret. f_equal. unfold set_premnodes. simpl. f_equal.
  rewrite insert_app_r_alt by lia. rewrite Nat.sub_diag. reflexivity.
Qed.

Lemma empty_premises_share_the_terminal_witness :
  (do! compile_premise Sample.X 0 Sample.bare in compile_premise Sample.X 1 Sample.bare)
    (snd (Network_initialize Sample.X Sample.empty_store))
  = (Ok tt,
     set_premnodes [MkPremNode 0 [0; 1]]
       (snd (Network_initialize Sample.X Sample.empty_store))).
Proof.
  apply (empty_premises_share_the_terminal Sample.X 0 1 Sample.bare Sample.bare
           (snd (Network_initialize Sample.X Sample.empty_store)) 0);
    reflexivity.
Defined.

(** When the two premises belong to one rule, as within one call of
    [add_rule], the terminal lists that rule twice, and a commit that holds
    to the primary key of [prem_to_rule] raises [IntegrityError]. *)
Lemma duplicate_registration_is_refused :
  let s := snd (Network_initialize Sample.X Sample.empty_store) in
  let r := Network_add_rule Sample.X [Sample.bare; Sample.bare] [] [] s in
  fst r = Raise IntegrityError ∧ premnodes (snd r) = [MkPremNode 0 [0; 0]].
Proof. vm_compute. split; reflexivity. Qed.

Lemma keeps_conditions_refl s : keeps_conditions s s.
Proof. intros i r H. eauto. Qed.

Lemma keeps_conditions_trans a b c :
  keeps_conditions a b → keeps_conditions b c → keeps_conditions a c.
Proof.
  intros H1 H2 i r Hr. destruct (H1 i r Hr) as (r' & Hr' & E1).
  destruct (H2 i r' Hr') as (r'' & Hr'' & E2). exists r''. split; congruence.
Qed.

Lemma keeps_conditions_same s s' : rules s' = rules s → keeps_conditions s s'.
Proof. intros H i r Hr. rewrite H. eauto. Qed.

Lemma keeps_conditions_update s i r r' :
  rules s !! i = Some r → Rule_conditions r' = Rule_conditions r →
  keeps_conditions s (set_rules (<[i := r']> (rules s)) s).
Proof.
  intros Hr Hc j q Hq. simpl. destruct (decide (i = j)) as [<- | Hne].
  - rewrite list_lookup_insert_eq by (eapply lookup_lt_Some; eassumption).
    eexists. split; [reflexivity | congruence].
  - rewrite list_lookup_insert_ne by exact Hne. eauto.
Qed.

Lemma preserves_update_rule_conditions i f :
  (∀ r, Rule_conditions (f r) = Rule_conditions r) →
  preserves keeps_conditions (update_rule i f).
Proof.
  intros Hf s. unfold update_rule. destruct (rules s !! i) as [r|] eqn:E; simpl.
  - apply (keeps_conditions_update s i r (f r) E (Hf r)).
  - apply keeps_conditions_refl.
Qed.

(** X14.  The conditions given to [add_rule] are put under [conds] (l.121),
    not among the [conditions] that [Rule.dispatch] tests (l.660): the rule
    that a completed [add_rule] leaves has none of those, and the loop over
    them lets any binding through without a test. *)
Theorem Network_add_rule_conditions_untested (X : Externals) (prems : list Term)
    (conds : list Condition) (cons : list Term) (s s' : Network) (o : option nat) :
  Network_add_rule X prems conds cons s = (Ok o, s') →
  ∃ r, rules s' !! length (rules s) = Some r
       ∧ Rule_conditions r = []
       ∧ ∀ test match_ s'',
           conditions_hold test (Rule_conditions r) match_ s'' = (Ok true, s'').
Proof.
  pose proof keeps_conditions_refl as Hr. pose proof keeps_conditions_trans as Ht.
  unfold Network_add_rule. unfold bind at 1. unfold new_rule at 1.
  set (n := length (rules s)).
  set (s1 := set_rules (rules s ++ [MkRule [] [] [] [] None []]) s).
  intros Hrun.
  assert (Hkeep : keeps_conditions s1 s').
  { match type of Hrun with ?c s1 = _ =>
      assert (Hp : preserves keeps_conditions c) end.
    { preserves_step Hr Ht.
      - preserves_step Hr Ht. apply preserves_compile_premise; try assumption.
        + intros; apply keeps_conditions_same; reflexivity.
        + intros; apply keeps_conditions_same; reflexivity.
        + intros; eapply keeps_conditions_update; [eassumption | reflexivity].
      - preserves_step Hr Ht.
        + apply preserves_update_rule_conditions. reflexivity.
        + preserves_step Hr Ht.
          * preserves_step Hr Ht. apply preserves_update_rule_conditions. reflexivity.
          * preserves_step Hr Ht; [| preserves_step Hr Ht].
            apply preserves_pure, Hr. }
    specialize (Hp s1). rewrite Hrun in Hp. exact Hp. }
  destruct (Hkeep n (MkRule [] [] [] [] None [])) as (r & Hrn & Hc).
  { subst s1 n. simpl. apply list_lookup_middle. reflexivity. }
  exists r. split; [exact Hrn |]. split; [exact Hc |].
  intros test match_ s''. rewrite Hc. reflexivity.
Qed.

Lemma Network_add_rule_conditions_untested_witness :
  let s := snd (Network_initialize Sample.X Sample.empty_store) in
  ∃ r, rules (snd (Network_add_rule Sample.X [] [MkCondition "no" []] [] s))
         !! length (rules s) = Some r
       ∧ Rule_conditions r = [].
Proof.
  destruct (Network_add_rule_conditions_untested Sample.X [] [MkCondition "no" []] []
              (snd (Network_initialize Sample.X Sample.empty_store))
              (snd (Network_add_rule Sample.X [] [MkCondition "no" []] []
                      (snd (Network_initialize Sample.X Sample.empty_store))))
              None)
    as (r & Hr & Hc & _).
  - reflexivity.
  - exists r. split; assumption.
Defined.

(** ** Nodes of the tree *)

Lemma nclass_eqb_refl c : nclass_eqb c c = true.
Proof. destruct c; reflexivity. Qed.

Lemma filter_filter_ext {A} (f f' g g' : A → bool) l :
  (∀ x, In x l → g x = g' x) → (∀ x, In x l → f x = f' x) →
  List.filter f (List.filter g l) = List.filter f' (List.filter g' l).
Proof.
  intros Hg Hf. rewrite (filter_ext_in g g' l Hg).
  apply filter_ext_in. intros x Hx. apply filter_In in Hx as [Hx _]. apply Hf. exact Hx.
Qed.

(** The query of l.141 after a node was added: the nodes it found before,
    and the new node if it answers the query. *)
Lemma matching_children_grown s ns1 cls parent pnum value new :
  length ns1 = S (length (nodes s)) →
  (∀ i n, nodes s !! i = Some n →
          ∃ n', ns1 !! i = Some n'
                ∧ Node_ntype n' = Node_ntype n ∧ Node_value n' = Node_value n
                ∧ Node_var n' = Node_var n ∧ Node_parent_id n' = Node_parent_id n) →
  ns1 !! length (nodes s) = Some new →
  Node_parent_id new = Some parent → Node_ntype new = cls →
  Node_var new = pnum → Node_value new = value →
  matching_children (set_nodes ns1 s) cls parent pnum value
  = matching_children s cls parent pnum value ++ [length (nodes s)].
Proof.
  intros Hlen Hold Hnew Hpar Hcls Hvar Hval.
  unfold matching_children, children_where, Node_children. simpl.
  rewrite Hlen, seq_S. simpl. rewrite !List.filter_app. f_equal.
  - apply filter_filter_ext; intros i Hi; apply in_seq in Hi;
      destruct (lookup_lt_is_Some_2 (nodes s) i) as [n Hn]; try lia;
      destruct (Hold i n Hn) as (n' & Hn' & E1 & E2 & E3 & E4);
      rewrite Hn, Hn'; rewrite ?E1, ?E2, ?E3, ?E4; reflexivity.
  - simpl. rewrite Hnew, Hpar, Nat.eqb_refl. simpl.
    rewrite Hnew, Hcls, Hvar, Hval, nclass_eqb_refl, Nat.eqb_refl, pyval_eqb_refl.
    reflexivity.
Qed.

Lemma assoc_find_app_None {A} k (l l' : list (string * A)) :
  assoc_find k l = None → assoc_find k (l ++ l') = assoc_find k l'.
Proof.
  induction l as [|[k' a] l IH]; simpl; [reflexivity |].
  destruct (String.eqb k k'); [discriminate | exact IH].
Qed.

(** The slot of a name is the same when it is asked for again. *)
Lemma assign_pnum_again_same X name value rule vars :
  assign_pnum X name value rule (snd (assign_pnum X name value rule vars))
  = assign_pnum X name value rule vars.
Proof.
  unfold assign_pnum. destruct (varpat_match X name) as [num|]; [| reflexivity].
  destruct (assoc_find name vars) as [entry|] eqn:Ea; simpl.
  - rewrite Ea. reflexivity.
  - rewrite assoc_find_app_None by exact Ea. simpl.
    rewrite String.eqb_refl. reflexivity.
Qed.

(** l.133-139 touch the rules only. *)
Lemma with_varname_frame X t rule vars s :
  ∃ rs, with_varname X t rule vars s = set_rules rs s.
Proof.
  unfold with_varname, attach_varname.
  destruct (new_varname X (Term_name t) t rule vars);
    [destruct (rules s !! rule) |]; eauto; exists (rules s); destruct s; reflexivity.
Qed.

(** Asked again with the [vars] it left, l.133-139 make no [Varname]. *)
Lemma with_varname_again X t rule vars s :
  with_varname X t rule (snd (assign_pnum X (Term_name t) t rule vars)) s = s.
Proof.
  unfold with_varname, new_varname, assign_pnum.
  destruct (varpat_match X (Term_name t)) as [num|]; [| reflexivity].
  destruct (assoc_find (Term_name t) vars) as [entry|] eqn:Ea; simpl.
  - rewrite Ea. reflexivity.
  - rewrite assoc_find_app_None by exact Ea. simpl.
    rewrite String.eqb_refl. reflexivity.
Qed.

(** l.131-152 when the query of l.141 finds nothing: the node is created
    with the slot of the name, and the path is recorded with the parent if
    it has none yet. *)
Lemma get_or_create_node_from_creates X cls t parent p vars rule s pn :
  cls ≠ RootNode → nodes s !! parent = Some pn →
  matching_children s cls parent
    (fst (assign_pnum X (Term_name t) t rule vars)) (VTerm t) = [] →
  get_or_create_node_from X cls (VTerm t) parent p vars rule s
  = (Ok (length (nodes s), snd (assign_pnum X (Term_name t) t rule vars)),
     set_nodes
       (match Node_child_path pn with
        | [] => <[parent := MkNode (Node_ntype pn) (Node_value pn) (Node_var pn)
                              (Node_parent_id pn) p]>
        | _ :: _ => fun ns => ns
        end (nodes s ++ [MkNode cls (VTerm t)
                           (fst (assign_pnum X (Term_name t) t rule vars))
                           (Some parent) []])) (with_varname X t rule vars s)).
Proof.
  intros Hcls Hpn Hnone. unfold get_or_create_node_from.
  unfold bind at 1. unfold lift. simpl pyval_term. cbv iota beta.
  unfold bind at 1. unfold modify at 1.
  destruct (with_varname_frame X t rule vars s) as [rs Hrs]. rewrite Hrs.
  assert (Hpn' : nodes (set_rules rs s) !! parent = Some pn) by exact Hpn.
  assert (Hlen' : length (nodes (set_rules rs s)) = length (nodes s)) by reflexivity.
  rewrite <- Hlen'.
  change (nodes s ++ [MkNode cls (VTerm t)
                        (fst (assign_pnum X (Term_name t) t rule vars)) (Some parent) []])
    with (nodes (set_rules rs s) ++ [MkNode cls (VTerm t)
                        (fst (assign_pnum X (Term_name t) t rule vars)) (Some parent) []]).
  change (matching_children s) with (matching_children (set_rules rs s)) in Hnone.
  clear Hrs Hpn Hlen'. revert Hpn' Hnone. generalize (set_rules rs s). clear s rs.
  intros s Hpn Hnone.
  destruct (assign_pnum X (Term_name t) t rule vars) as [pnum vars1]. simpl fst in *.
  simpl snd. unfold matching_children in Hnone.
  assert (Hrest :
    (let! found := gets (fun s0 =>
        children_where s0 parent (fun n =>
          nclass_eqb (Node_ntype n) cls && (Node_var n =? pnum)
          && pyval_eqb (Node_value n) (VTerm t))) in
     match found with
     | [] =>
         let! node := new_node (MkNode cls (VTerm t) pnum (Some parent) []) in
         let! pn0 := get_node parent in
         do! match Node_child_path pn0 with
             | [] => modify (fun s0 =>
                 set_nodes (<[parent := MkNode (Node_ntype pn0) (Node_value pn0)
                                          (Node_var pn0) (Node_parent_id pn0) p]>
                              (nodes s0)) s0)
             | _ :: _ => ret tt
             end in
         ret (node, vars1)
     | [node] => ret (node, vars1)
     | _ :: _ :: _ => raise MultipleResultsFound
     end) s
    = (Ok (length (nodes s), vars1),
       set_nodes
         (match Node_child_path pn with
          | [] => <[parent := MkNode (Node_ntype pn) (Node_value pn) (Node_var pn)
                                (Node_parent_id pn) p]>
          | _ :: _ => fun ns => ns
          end (nodes s ++ [MkNode cls (VTerm t) pnum (Some parent) []])) s)).
  { unfold bind at 1. unfold gets. rewrite Hnone.
    unfold bind at 1. unfold new_node. unfold bind at 1. unfold get_node, the.
    cbn [nodes set_nodes]. rewrite (lookup_app_l_Some _ _ _ _ Hpn). unfold ret at 1.
    destruct (Node_child_path pn); reflexivity. }
  destruct cls; try congruence; unfold bind at 1; unfold ret at 1; exact Hrest.
Qed.

(** l.131-152 when the query of l.141 finds one node: it is returned and
    nothing changes. *)
Lemma get_or_create_node_from_finds X cls t parent p vars rule s node :
  cls ≠ RootNode →
  matching_children s cls parent
    (fst (assign_pnum X (Term_name t) t rule vars)) (VTerm t) = [node] →
  get_or_create_node_from X cls (VTerm t) parent p vars rule s
  = (Ok (node, snd (assign_pnum X (Term_name t) t rule vars)),
     with_varname X t rule vars s).
Proof.
  intros Hcls Hone. unfold get_or_create_node_from.
  unfold bind at 1. unfold lift. simpl pyval_term. cbv iota beta.
  unfold bind at 1. unfold modify at 1.
  destruct (with_varname_frame X t rule vars s) as [rs Hrs]. rewrite Hrs.
  change (matching_children s) with (matching_children (set_rules rs s)) in Hone.
  clear Hrs. revert Hone. generalize (set_rules rs s). clear s rs. intros s Hone.
  destruct (assign_pnum X (Term_name t) t rule vars) as [pnum vars1]. simpl fst in *.
  simpl snd. unfold matching_children in Hone.
  destruct cls; try congruence; unfold bind at 1; unfold ret at 1;
    unfold bind at 1; unfold gets; rewrite Hone; reflexivity.
Qed.

(** X15.  A second call of [get_or_create_node] for the same value under the
    same parent finds the node that the first call created, whatever path it
    is given: it returns that node and the same slots, and adds nothing. *)
Theorem get_or_create_node_finds_its_node (X : Externals) (cls : nclass) (t : Term)
    (parent : nat) (p : path) (vars : vars_dict) (rule : nat) (s : Network) (pn : Node) :
  cls ≠ RootNode → nodes s !! parent = Some pn →
  matching_children s cls parent
    (fst (assign_pnum X (Term_name t) t rule vars)) (VTerm t) = [] →
  ∃ s1 vars1,
    get_or_create_node_from X cls (VTerm t) parent p vars rule s
    = (Ok (length (nodes s), vars1), s1)
    ∧ length (nodes s1) = S (length (nodes s))
    ∧ ∀ p', get_or_create_node_from X cls (VTerm t) parent p' vars1 rule s1
            = (Ok (length (nodes s), vars1), s1).
Proof.
  intros Hcls Hpn Hnone.
  rewrite (get_or_create_node_from_creates X cls t parent p vars rule s pn Hcls Hpn Hnone).
  destruct (with_varname_frame X t rule vars s) as [rs ->].
  set (pnum := fst (assign_pnum X (Term_name t) t rule vars)) in *.
  set (vars1 := snd (assign_pnum X (Term_name t) t rule vars)).
  set (new := MkNode cls (VTerm t) pnum (Some parent) []).
  set (ns1 := match Node_child_path pn with
              | [] => <[parent := MkNode (Node_ntype pn) (Node_value pn) (Node_var pn)
                                    (Node_parent_id pn) p]>
              | _ :: _ => fun ns => ns
              end (nodes s ++ [new])).
  assert (Hpar : parent < length (nodes s)) by (eapply lookup_lt_Some; eassumption).
  assert (Hlen : length ns1 = S (length (nodes s))).
  { subst ns1. destruct (Node_child_path pn);
      rewrite ?length_insert, length_app; simpl; lia. }
  exists (set_nodes ns1 (set_rules rs s)), vars1.
  split; [reflexivity |]. split; [exact Hlen |].
  intros p'.
  assert (Hagain : assign_pnum X (Term_name t) t rule vars1 = (pnum, vars1)).
  { subst vars1 pnum. rewrite assign_pnum_again_same.
    destruct (assign_pnum X (Term_name t) t rule vars); reflexivity. }
  assert (Hw : with_varname X t rule vars1 (set_nodes ns1 (set_rules rs s))
               = set_nodes ns1 (set_rules rs s)) by apply with_varname_again.
  pose proof (get_or_create_node_from_finds X cls t parent p' vars1 rule
                (set_nodes ns1 (set_rules rs s)) (length (nodes s)) Hcls) as Hfind.
  rewrite Hagain, Hw in Hfind. simpl in Hfind. apply Hfind.
  rewrite (matching_children_grown (set_rules rs s) ns1 cls parent pnum (VTerm t) new);
    try reflexivity.
  - change (matching_children (set_rules rs s)) with (matching_children s).
    fold pnum in Hnone. rewrite Hnone. reflexivity.
  - exact Hlen.
  - intros i n Hn. change (nodes s !! i = Some n) in Hn.
    subst ns1. destruct (Node_child_path pn).
    + destruct (decide (parent = i)) as [<- | Hne].
      * rewrite list_lookup_insert_eq by (rewrite length_app; simpl; lia).
        eexists. split; [reflexivity |]. simpl.
        assert (n = pn) as -> by congruence. auto.
      * rewrite list_lookup_insert_ne by exact Hne.
        exists n. split; [apply lookup_app_l_Some; exact Hn | auto].
    + exists n. split; [apply lookup_app_l_Some; exact Hn | auto].
  - cbn [nodes set_rules]. subst ns1. destruct (Node_child_path pn).
    + rewrite list_lookup_insert_ne by lia. apply list_lookup_middle. reflexivity.
    + apply list_lookup_middle. reflexivity.
Qed.

Lemma get_or_create_node_finds_its_node_witness :
  let s := snd (Network_initialize Sample.X Sample.empty_store) in
  ∃ s1 vars1,
    get_or_create_node_from Sample.X TermNode (VTerm Sample.Person1) 0
      ["subj"; "_term"] [] 0 s = (Ok (1, vars1), s1)
    ∧ get_or_create_node_from Sample.X TermNode (VTerm Sample.Person1) 0
        ["who"; "_term"] vars1 0 s1 = (Ok (1, vars1), s1).
Proof.
  destruct (get_or_create_node_finds_its_node Sample.X TermNode Sample.Person1 0
              ["subj"; "_term"] [] 0
              (snd (Network_initialize Sample.X Sample.empty_store))
              (MkNode RootNode VNone 0 None []))
    as (s1 & vars1 & H1 & _ & H2).
  - discriminate.
  - reflexivity.
  - reflexivity.
  - exists s1, vars1. split; [exact H1 | apply H2].
Defined.

Lemma keeps_nodes_refl s : keeps_nodes s s.
Proof. intros i n H. exists n. auto 10. Qed.

Lemma keeps_nodes_append s new : keeps_nodes s (set_nodes (nodes s ++ [new]) s).
Proof.
  intros i n H. exists n. split; [simpl; apply lookup_app_l_Some; exact H | auto 10].
Qed.

Lemma keeps_nodes_append_path s new parent pn p :
  (nodes s ++ [new]) !! parent = Some pn → Node_child_path pn = [] →
  keeps_nodes s
    (set_nodes (<[parent := MkNode (Node_ntype pn) (Node_value pn) (Node_var pn)
                              (Node_parent_id pn) p]> (nodes s ++ [new])) s).
Proof.
  intros Hpn Hempty i n Hn. simpl.
  destruct (decide (parent = i)) as [<- | Hne].
  - rewrite list_lookup_insert_eq by (eapply lookup_lt_Some; eassumption).
    eexists. split; [reflexivity |]. simpl.
    rewrite (lookup_app_l_Some _ _ _ _ Hn) in Hpn. injection Hpn as ->.
    repeat split. congruence.
  - rewrite list_lookup_insert_ne by exact Hne.
    exists n. split; [apply lookup_app_l_Some; exact Hn | auto 10].
Qed.

Lemma set_nodes_id s : set_nodes (nodes s) s = s.
Proof. destruct s; reflexivity. Qed.

(** From l.140 on, only the nodes change: one node at most is added, and
    every node keeps its class, value, slot and parent, and its [child_path]
    once it has one. *)
Lemma get_or_create_node_from_nodes X cls value parent p vars rule s s' :
  let s0 := match value with VTerm t => with_varname X t rule vars s | _ => s end in
  s' = snd (get_or_create_node_from X cls value parent p vars rule s) →
  keeps_nodes s0 s' ∧ (∃ ns, s' = set_nodes ns s0)
  ∧ length (nodes s0) ≤ length (nodes s') ≤ S (length (nodes s0)).
Proof.
  intros s0 Hs'. subst s0. revert Hs'.
  unfold get_or_create_node_from. unfold bind at 1. unfold lift.
  destruct value as [| | |t]; simpl pyval_term; cbv iota beta;
    try (intros ->; split; [apply keeps_nodes_refl |]; split; [| simpl; lia];
         exists (nodes s); symmetry; apply set_nodes_id).
  unfold bind at 1. unfold modify at 1.
  generalize (with_varname X t rule vars s). clear s. intros s ->.
  set (P := fun s' : Network =>
              keeps_nodes s s' ∧ (∃ ns, s' = set_nodes ns s)
              ∧ length (nodes s) ≤ length (nodes s') ≤ S (length (nodes s))).
  match goal with |- context [snd ?r] => change (P (snd r)) end.
  assert (Hsame : P s).
  { split; [apply keeps_nodes_refl |]. split; [| lia].
    exists (nodes s). symmetry. apply set_nodes_id. }
  assert (Hnew : ∀ new, P (set_nodes (nodes s ++ [new]) s)).
  { intros new. split; [apply keeps_nodes_append |].
    split; [eexists; reflexivity |]. simpl. rewrite length_app. simpl. lia. }
  destruct (assign_pnum X (Term_name t) t rule vars) as [pnum vars1].
  assert (Hrest : ∀ c : M unit, (c = ret tt ∨ c = raise AttributeError) →
    P (snd ((do! c in
       let! found := gets (fun s0 =>
          children_where s0 parent (fun n =>
            nclass_eqb (Node_ntype n) cls && (Node_var n =? pnum)
            && pyval_eqb (Node_value n) (VTerm t))) in
       match found with
       | [] =>
           let! node := new_node (MkNode cls (VTerm t) pnum (Some parent) []) in
           let! pn0 := get_node parent in
           do! match Node_child_path pn0 with
               | [] => modify (fun s0 =>
                   set_nodes (<[parent := MkNode (Node_ntype pn0) (Node_value pn0)
                                            (Node_var pn0) (Node_parent_id pn0) p]>
                                (nodes s0)) s0)
               | _ :: _ => ret tt
               end in
           ret (node, vars1)
       | [node] => ret (node, vars1)
       | _ :: _ :: _ => raise MultipleResultsFound
       end) s))).
  { intros c [-> | ->]; [| exact Hsame].
    unfold bind at 1. unfold ret at 1. unfold bind at 1. unfold gets.
    destruct (children_where s parent _) as [|node [|node' found]];
      [| exact Hsame | exact Hsame].
    unfold bind at 1. unfold new_node. unfold bind at 1. unfold get_node, the.
    cbn [nodes set_nodes].
    destruct ((nodes s ++ [MkNode cls (VTerm t) pnum (Some parent) []]) !! parent)
      as [pn0|] eqn:Hpn0; [| apply Hnew].
    unfold ret at 1.
    destruct (Node_child_path pn0) eqn:Hp0; unfold bind, ret, modify; cbn [snd];
      [| apply Hnew].
    refine (_ : P (set_nodes
                     (<[parent := MkNode (Node_ntype pn0) (Node_value pn0) (Node_var pn0)
                                    (Node_parent_id pn0) p]>
                        (nodes s ++ [MkNode cls (VTerm t) pnum (Some parent) []])) s)).
    split; [eapply keeps_nodes_append_path; eassumption |].
    split; [eexists; reflexivity |].
    simpl. rewrite length_insert, length_app. simpl. lia. }
  destruct cls; apply Hrest; auto.
Qed.

(** l.133-139 add one [Varname] at most, to the rule they were given. *)
Lemma with_varname_keeps_rules X t rule vars s :
  keeps_rules_but_varnames rule s (with_varname X t rule vars s).
Proof.
  assert (Hsame : keeps_rules_but_varnames rule s s).
  { split; [reflexivity |]. intros i r Hr. exists []. rewrite app_nil_r.
    split; [rewrite Hr; destruct r; reflexivity | split; [simpl; lia | reflexivity]]. }
  unfold with_varname, attach_varname.
  destruct (new_varname X (Term_name t) t rule vars) as [vn|]; [| exact Hsame].
  destruct (rules s !! rule) as [r0|] eqn:Hr0; [| exact Hsame].
  split; [simpl; apply length_insert |].
  intros i r Hr. simpl. destruct (decide (rule = i)) as [<- | Hne].
  - exists [vn]. rewrite list_lookup_insert_eq by (eapply lookup_lt_Some; eassumption).
    assert (r = r0) as -> by congruence.
    split; [reflexivity | split; [simpl; lia | congruence]].
  - exists []. rewrite list_lookup_insert_ne by exact Hne. rewrite app_nil_r.
    split; [rewrite Hr; destruct r; reflexivity | split; [simpl; lia | reflexivity]].
Qed.

(** X16.  [get_or_create_node], from l.131 on, only adds to the tree and to
    the variables of the rule: of the store it changes the nodes and the
    rules alone; it adds one node at most, and leaves to every node its
    class, value, slot and parent, and its [child_path] once it has one; it
    adds one [Varname] at most, to the [varnames] of the rule it was given,
    and leaves every rule as it was otherwise. *)
Theorem get_or_create_node_keeps_nodes (X : Externals) (cls : nclass) (value : pyval)
    (parent : nat) (p : path) (vars : vars_dict) (rule : nat) (s : Network) :
  keeps_nodes s (snd (get_or_create_node_from X cls value parent p vars rule s))
  ∧ keeps_rules_but_varnames rule s
      (snd (get_or_create_node_from X cls value parent p vars rule s))
  ∧ (∃ ns rs, snd (get_or_create_node_from X cls value parent p vars rule s)
              = set_nodes ns (set_rules rs s))
  ∧ length (nodes s)
    ≤ length (nodes (snd (get_or_create_node_from X cls value parent p vars rule s)))
    ≤ S (length (nodes s)).
Proof.
  pose proof (get_or_create_node_from_nodes X cls value parent p vars rule s _ eq_refl)
    as H.
  cbv zeta in H.
  assert (H0 : ∃ rs, match value with
                     | VTerm t => with_varname X t rule vars s
                     | _ => s
                     end = set_rules rs s
                     ∧ keeps_rules_but_varnames rule s (set_rules rs s)).
  { destruct value as [| | |t];
      try (exists (rules s); split; [destruct s; reflexivity |];
           replace (set_rules (rules s) s) with s by (destruct s; reflexivity);
           split; [reflexivity |]; intros i r Hr; exists []; rewrite app_nil_r;
           split; [rewrite Hr; destruct r; reflexivity
                  | split; [simpl; lia | reflexivity]]).
    destruct (with_varname_frame X t rule vars s) as [rs Hrs]. exists rs.
    split; [exact Hrs |]. rewrite <- Hrs. apply with_varname_keeps_rules. }
  destruct H0 as (rs & Hrs & Hkeep). rewrite Hrs in H.
  destruct H as (Hn & (ns & Hs') & Hlen).
  split; [exact Hn |]. split.
  - rewrite Hs'. exact Hkeep.
  - split; [exists ns, rs; exact Hs' | exact Hlen].
Qed.

(** ** Slots *)

(** X17.  The slots kept in [vars] stay numbered 0, 1, 2, ... in the order in
    which the names were first met: after l.133-139 the slot returned for a
    variable is the one [vars] records for its name, and no two names of
    [vars] have the same slot. *)
Theorem assign_pnum_keeps_numbering (X : Externals) (name : string) (value : Term)
    (rule : nat) (vars : vars_dict) :
  well_numbered vars →
  well_numbered (snd (assign_pnum X name value rule vars))
  ∧ (is_Some (varpat_match X name) →
     ∃ vn, assoc_find name (snd (assign_pnum X name value rule vars))
           = Some (fst (assign_pnum X name value rule vars), vn))
  ∧ (∀ n1 n2 e1 e2,
       (n1, e1) ∈ snd (assign_pnum X name value rule vars) →
       (n2, e2) ∈ snd (assign_pnum X name value rule vars) →
       fst e1 = fst e2 → n1 = n2 ∧ e1 = e2).
Proof.
  intros Hwn.
  assert (Hwn' : well_numbered (snd (assign_pnum X name value rule vars))).
  { unfold assign_pnum. destruct (varpat_match X name) as [num|]; [| exact Hwn].
    destruct (assoc_find name vars) as [entry|]; [exact Hwn |]. simpl.
    intros i n e Hi. unfold vars_dict in *.
    destruct (decide (i < length vars)) as [Hlt | Hge].
    - rewrite lookup_app_l in Hi by exact Hlt. eapply Hwn. exact Hi.
    - rewrite lookup_app_r in Hi by lia.
      destruct (i - length vars) as [|k] eqn:Ek; simpl in Hi; [| discriminate].
      injection Hi as <- <-. simpl. lia. }
  split; [exact Hwn' |]. split.
  - intros [num Hnum]. unfold assign_pnum. rewrite Hnum.
    destruct (assoc_find name vars) as [[pnum vn]|] eqn:Ea; simpl.
    + exists vn. exact Ea.
    + eexists. rewrite assoc_find_app_None by exact Ea. simpl.
      rewrite String.eqb_refl. reflexivity.
  - intros n1 n2 e1 e2 H1 H2 Heq.
    apply list_elem_of_lookup in H1 as [i1 H1]. apply list_elem_of_lookup in H2 as [i2 H2].
    pose proof (Hwn' i1 n1 e1 H1). pose proof (Hwn' i2 n2 e2 H2).
    assert (i1 = i2) as -> by congruence.
    rewrite H1 in H2. injection H2 as -> ->. auto.
Qed.

Lemma assign_pnum_keeps_numbering_witness :
  well_numbered (snd (assign_pnum Sample.X "Person1" Sample.Person1 0 []))
  ∧ ∃ vn, assoc_find "Person1" (snd (assign_pnum Sample.X "Person1" Sample.Person1 0 []))
          = Some (0, vn).
Proof.
  destruct (assign_pnum_keeps_numbering Sample.X "Person1" Sample.Person1 0 [])
    as (H1 & H2 & _).
  - intros i n e Hi. destruct i; discriminate Hi.
  - split; [exact H1 |]. apply H2. simpl. eauto.
Defined.

(** ** Opening a store *)

(** X18.  On a store without a root, [initialize] followed by the
    construction of a [Network] over the store gives a network whose root is
    the one that [initialize] made, with no further row. *)
Theorem Network_init_after_initialize (X : Externals) (s : Network) :
  root_rows s = [] →
  (do! Network_initialize X in Network___init__ X) s = Network_initialize X s
  ∧ root (snd (Network_initialize X s)) = Some (length (nodes s)).
Proof.
  intros Hnone. split; [| reflexivity].
  unfold bind. simpl.
  unfold Network___init__, query_root_one. simpl.
  match goal with |- context [root_rows ?s1] =>
    replace (root_rows s1) with (root_rows s ++ [length (nodes s)]) end.
  - rewrite Hnone. reflexivity.
  - unfold root_rows. simpl. unfold root_rows in Hnone. rewrite length_app. simpl.
    rewrite Nat.add_1_r, seq_S. simpl. rewrite List.filter_app. f_equal.
    + apply filter_ext_in. intros i Hi. apply in_seq in Hi.
      rewrite lookup_app_l by lia. reflexivity.
    + simpl. rewrite list_lookup_middle by reflexivity. reflexivity.
Qed.

Lemma Network_init_after_initialize_witness :
  (do! Network_initialize Sample.X in Network___init__ Sample.X) Sample.empty_store
  = Network_initialize Sample.X Sample.empty_store.
Proof.
  apply (proj1 (Network_init_after_initialize Sample.X Sample.empty_store eq_refl)).
Defined.

(** X19.  After two calls of [initialize], whatever the store held before,
    a [Network] cannot be constructed over it: the query for the one root
    raises [MultipleResultsFound], which [__init__] does not catch. *)
Theorem Network_init_after_two_initialize (X : Externals) (s : Network) :
  fst ((do! Network_initialize X in do! Network_initialize X in Network___init__ X) s)
  = Raise MultipleResultsFound.
Proof.
  unfold bind. simpl. unfold Network___init__, query_root_one. simpl.
  match goal with |- context [root_rows ?s2] =>
    replace (root_rows s2)
      with (root_rows s ++ [length (nodes s); S (length (nodes s))]) end.
  - destruct (root_rows s) as [|a [|b l]]; reflexivity.
  - unfold root_rows. simpl. rewrite !length_app. simpl.
    rewrite !Nat.add_1_r, !seq_S. simpl. rewrite !List.filter_app.
    rewrite <- app_assoc. f_equal.
    + apply filter_ext_in. intros i Hi. apply in_seq in Hi.
      rewrite !lookup_app_l by (rewrite ?length_app; simpl; lia). reflexivity.
    + simpl. rewrite lookup_app_l by (rewrite length_app; simpl; lia).
      rewrite list_lookup_middle by reflexivity. simpl.
      rewrite list_lookup_middle by (rewrite length_app; simpl; lia). reflexivity.
Qed.

(** ** Rule.dispatch with the methods of the module *)




(** X21.  [get_pvarname] on a rule without premise variables returns [None]
    at the first call, which leaves the empty [_pvn_dict] with the rule; at
    every later call the lookup in that dictionary raises [KeyError]. *)
Theorem Rule_get_pvarname_twice (self : nat) (name name' : option nat * key)
    (s : Network) (r : Rule) :
  rules s !! self = Some r → Rule__pvn_dict r = None → Rule_pvars r = [] →
  ∃ s1, Rule_get_pvarname self name s = (Ok None, s1)
        ∧ Rule_get_pvarname self name' s1 = (Raise KeyError, s1).
Proof.
  intros Hr Hd Hp. eexists. split.
  - unfold Rule_get_pvarname. unfold bind at 1. unfold get_rule, the. rewrite Hr.
    unfold ret at 1. rewrite Hd, Hp. unfold bind, modify. reflexivity.
  - unfold Rule_get_pvarname. unfold bind at 1. unfold get_rule, the.
    unfold set_rule. cbn [rules set_rules].
    rewrite list_lookup_insert_eq by (eapply lookup_lt_Some; eassumption).
    reflexivity.
Qed.

Lemma Rule_get_pvarname_twice_witness :
  ∃ s1, Rule_get_pvarname 2 (None, KInt 1) Sample.conditioned = (Ok None, s1)
        ∧ Rule_get_pvarname 2 (None, KInt 1) s1 = (Raise KeyError, s1).
Proof.
  apply (Rule_get_pvarname_twice 2 _ _ Sample.conditioned
           (MkRule [] [] [Sample.mary_loves_john] [] None []));
    reflexivity.
Defined.

(** ** Rule.get_varname *)

Lemma last_named_cons vn vns name :
  last_named (vn :: vns) name
  = match last_named vns name with
    | Some v => Some v
    | None => if key_eqb (KStr (Varname_name vn)) name then Some vn else None
    end.
Proof. unfold last_named. simpl. rewrite find_app_or. reflexivity. Qed.

(** The loop of l.640-644 over objects that have a name. *)
Lemma fill_vnames_run vns name :
  ∀ d target,
    ∃ d', fill_vnames (fun vn => Ok (Varname_name vn)) vns name d target
          = (Ok (match last_named vns name with Some v => Some v | None => target end), d')
          ∧ ∀ k, dict_get k d'
                 = match last_named vns k with Some v => Some v | None => dict_get k d end.
Proof.
  induction vns as [|vn vns IH]; intros d target.
  - exists d. split; reflexivity.
  - cbn [fill_vnames].
    destruct (IH (dict_set (KStr (Varname_name vn)) vn d)
                (if key_eqb (KStr (Varname_name vn)) name then Some vn else target))
      as (d' & Hrun & Hd').
    exists d'. split.
    + rewrite Hrun. rewrite last_named_cons.
      destruct (last_named vns name); [reflexivity |].
      destruct (key_eqb (KStr (Varname_name vn)) name); reflexivity.
    + intros k. rewrite Hd', last_named_cons.
      destruct (last_named vns k); [reflexivity |].
      rewrite dict_get_set, (key_eqb_sym k).
      destruct (key_eqb (KStr (Varname_name vn)) k); reflexivity.
Qed.

Lemma Rule_get_varname_first_call_aux varnames name :
  ∃ d, Rule_get_varname None varnames name = (Ok (last_named varnames name), Some d)
       ∧ ∀ k, dict_get k d = last_named varnames k.
Proof.
  unfold Rule_get_varname, Rule__get_vname.
  destruct (fill_vnames_run varnames name [] None) as (d & Hrun & Hd).
  exists d. rewrite Hrun. simpl. split.
  - destruct (last_named varnames name); reflexivity.
  - intros k. rewrite Hd. destruct (last_named varnames k); reflexivity.
Qed.

(** X22.  The first call of [get_varname] on a rule returns the last of the
    rule's variables that has the name asked for, or [None] when none has,
    and leaves in [_vn_dict] every name of the rule with the last variable
    of that name. *)
Theorem Rule_get_varname_first_call (varnames : list Varname) (name : key) :
  ∃ d, Rule_get_varname None varnames name = (Ok (last_named varnames name), Some d)
       ∧ ∀ k, dict_get k d = last_named varnames k.
Proof. apply Rule_get_varname_first_call_aux. Qed.

(** X23.  Once a call of [get_varname] has made [_vn_dict], a call for a
    name of the rule returns the variable that the first call would return,
    and a call for any other name raises [KeyError], where the first call
    returned [None]; the dictionary is not changed. *)
Theorem Rule_get_varname_later_call (varnames : list Varname) (name name' : key) :
  Rule_get_varname (snd (Rule_get_varname None varnames name)) varnames name'
  = (match last_named varnames name' with
     | Some vn => Ok (Some vn)
     | None => Raise KeyError
     end,
     snd (Rule_get_varname None varnames name))
  ∧ fst (Rule_get_varname None varnames name') = Ok (last_named varnames name').
Proof.
  destruct (Rule_get_varname_first_call_aux varnames name) as (d & Hrun & Hd).
  destruct (Rule_get_varname_first_call_aux varnames name') as (d' & Hrun' & _).
  rewrite Hrun, Hrun'. simpl. split; [| reflexivity].
  unfold Rule_get_varname, Rule__get_vname. rewrite Hd.
  destruct (last_named varnames name'); reflexivity.
Qed.

(** ** The entry points together *)

Lemma same_tree_refl s : same_tree s s.
Proof. repeat split. Qed.

Lemma same_tree_trans a b c : same_tree a b → same_tree b c → same_tree a c.
Proof. intros (A1 & A2 & A3 & A4) (B1 & B2 & B3 & B4). repeat split; congruence. Qed.

Lemma preserves_Network_add_rule_same_tree X prems conds cons :
  preserves same_tree (Network_add_rule X prems conds cons).
Proof.
  pose proof same_tree_refl as Hr. pose proof same_tree_trans as Ht.
  assert (Hrules : ∀ i f, preserves same_tree (update_rule i f)).
  { intros i f s. unfold update_rule. destruct (rules s !! i); simpl; repeat split. }
  unfold Network_add_rule.
  preserves_step Hr Ht; [intros s; repeat split |].
  preserves_step Hr Ht.
  { preserves_step Hr Ht. unfold compile_premise.
    preserves_step Hr Ht; [preserves_step Hr Ht |].
    preserves_step Hr Ht; [apply preserves_walk_paths, Hr |].
    preserves_step Hr Ht; [preserves_step Hr Ht |].
    preserves_step Hr Ht.
    { destruct a2; [preserves_step Hr Ht |]. intros s. repeat split. }
    preserves_step Hr Ht.
    { intros s. unfold update_premnode. destruct (premnodes s !! a3); simpl; repeat split. }
    preserves_step Hr Ht. apply Hrules. }
  preserves_step Hr Ht; [apply Hrules |].
  preserves_step Hr Ht; [preserves_step Hr Ht; apply Hrules |].
  preserves_step Hr Ht; [apply preserves_pure, Hr | preserves_step Hr Ht].
Qed.

(** X24.  As shipped, [add_rule] cannot grow the tree: whatever the premises
    and whether it returns or raises, it leaves the nodes, the root, the
    facts and the bindings of the store as they were. *)
Theorem Network_add_rule_leaves_the_tree (X : Externals) (prems : list Term)
    (conds : list Condition) (cons : list Term) (s : Network) :
  nodes (snd (Network_add_rule X prems conds cons s)) = nodes s
  ∧ root (snd (Network_add_rule X prems conds cons s)) = root s
  ∧ facts (snd (Network_add_rule X prems conds cons s)) = facts s
  ∧ heap (snd (Network_add_rule X prems conds cons s)) = heap s.
Proof.
  destruct (preserves_Network_add_rule_same_tree X prems conds cons s) as (H1 & H2 & H3 & H4).
  auto.
Qed.

(** X25.  On a store whose root has no children, a sequence of calls of
    [add_fact] and [add_rule], returning or raising, leaves the tree as it
    was and the facts it was given stored in the order of the calls: no
    rule adds a fact. *)
Theorem entry_points_only_store_facts (X : Externals) (ops : list operation)
    (s : Network) (r : nat) (rn : Node) :
  root s = Some r → nodes s !! r = Some rn → Node_child_path rn = [] →
  no_initialize ops →
  nodes (run_operations X ops s) = nodes s
  ∧ root (run_operations X ops s) = root s
  ∧ facts (run_operations X ops s) = facts s ++ added_facts ops.
Proof.
  revert s. induction ops as [|op ops IH]; intros s Hr Hrn Hp Hno; simpl.
  - rewrite app_nil_r. auto.
  - assert (Hno' : no_initialize ops) by (intros o Ho; apply Hno; right; exact Ho).
    destruct op as [fuel fact | prems conds cons |].
    + simpl. rewrite (Network_add_fact_empty_tree X fuel fact s r rn Hr Hrn Hp). simpl.
      destruct (IH (set_facts (facts s ++ [fact]) s)) as (H1 & H2 & H3); try assumption.
      rewrite H1, H2, H3. simpl. rewrite <- app_assoc. auto.
    + simpl.
      destruct (preserves_Network_add_rule_same_tree X prems conds cons s)
        as (H1 & H2 & H3 & _).
      destruct (IH (snd (Network_add_rule X prems conds cons s))) as (G1 & G2 & G3);
        try assumption; [congruence | congruence |].
      rewrite G1, G2, G3, H1, H2, H3. auto.
    + exfalso. apply (Hno Initialize); [left | reflexivity].
Qed.

Lemma entry_points_only_store_facts_witness :
  let ops := [AddRule [Sample.premise_isa; Sample.premise_loves] []
                [Sample.mary_loves_john];
              AddFact 3 Sample.john_isa_person;
              AddFact 3 Sample.john_loves_mary] in
  let s := snd (Network_initialize Sample.X Sample.empty_store) in
  facts (run_operations Sample.X ops s)
  = [Sample.john_isa_person; Sample.john_loves_mary].
Proof.
  simpl.
  apply (proj2 (proj2 (entry_points_only_store_facts Sample.X
           [AddRule [Sample.premise_isa; Sample.premise_loves] []
              [Sample.mary_loves_john];
            AddFact 3 Sample.john_isa_person;
            AddFact 3 Sample.john_loves_mary]
           (snd (Network_initialize Sample.X Sample.empty_store)) 0
           (MkNode RootNode VNone 0 None []) eq_refl eq_refl eq_refl
           ltac:(intros op Hop; rewrite !elem_of_cons, elem_of_nil in Hop;
                 destruct Hop as [-> | [-> | [-> | []]]]; discriminate)))).
Defined.
